(** * bankAssistant: the voice-session handler, the agent hand-offs and the
      funds transfer of the in-memory database

    The development embeds three parts of the backend:
    - [Agents]: services/agents.py, the orchestrator holding the current agent
      and the transfer functions handed to each agent;
    - [Db]: db/service.py, the in-memory banking database with
      [transfer_funds] and [_generate_payment_id];
    - [Voice]: ws/voice.py, [handle_message] of the LLM websocket endpoint and
      the cooperative interleaving of the tasks it is run in.

    Python dictionaries are finite maps ([gmap]), [float] is the binary64
    type of the kernel, strings are byte strings. *)

From Stdlib Require Import ZArith PrimFloat Ascii String.
From stdpp Require Import base option list gmap strings fin_maps.

Local Open Scope string_scope.
Local Open Scope Z_scope.

(* ===================================================================== *)
(** ** services/agents.py *)
(* ===================================================================== *)

Module Agents.

(** The four agents built by [AgentService.__init__] (constants.Agent). *)
Inductive Agent := TRIAGE | ACCOUNTS | PAYMENTS | APPLICATIONS.

#[global] Instance Agent_eq_dec : EqDecision Agent.
Proof. solve_decision. Defined.

(** The callables that [__init__] hands to the agents: the four bound
    transfer methods and the imported domain functions. *)
Inductive Function :=
| transfer_to_accounts
| transfer_to_payments
| transfer_to_applications
| transfer_back_to_triage
| handle_account_balance
| retrieve_bank_statement
| transfer_funds
| schedule_payment
| cancel_payment
| apply_for_loan
| apply_for_credit_card.

#[global] Instance Function_eq_dec : EqDecision Function.
Proof. solve_decision. Defined.

(** What each agent is constructed with, in the order of [__init__]. *)
Definition functions (a : Agent) : list Function :=
  match a with
  | TRIAGE => [transfer_to_accounts; transfer_to_payments; transfer_to_applications]
  | ACCOUNTS => [transfer_to_payments; handle_account_balance; retrieve_bank_statement]
  | PAYMENTS => [transfer_back_to_triage; transfer_funds; schedule_payment; cancel_payment]
  | APPLICATIONS => [transfer_back_to_triage; apply_for_loan; apply_for_credit_card]
  end.

(** [self.messages] and [self.current_agent]; the Swarm and OpenAI clients
    carry no state of the orchestrator. *)
Record AgentService := mkAgentService {
  messages : list (string * string);
  current_agent : Agent
}.

(** [AgentService.__init__]: no messages, [current_agent = triage_agent]. *)
Definition init : AgentService :=
  {| messages := []; current_agent := TRIAGE |}.

(** The agent a transfer method returns; [None] for a domain function, which
    is a module-level function without access to the orchestrator. *)
Definition handoff_target (f : Function) : option Agent :=
  match f with
  | transfer_to_accounts => Some ACCOUNTS
  | transfer_to_payments => Some PAYMENTS
  | transfer_to_applications => Some APPLICATIONS
  | transfer_back_to_triage => Some TRIAGE
  | _ => None
  end.

(** Calling one of the functions: a transfer method assigns
    [self.current_agent] and returns that agent. *)
Definition call (f : Function) (svc : AgentService) : AgentService * option Agent :=
  match handoff_target f with
  | Some a => ({| messages := messages svc; current_agent := a |}, Some a)
  | None => (svc, None)
  end.

(** The active agent invokes one of the functions it was constructed with;
    any other function is not reachable from its reasoning step. *)
Definition invoke (svc : AgentService) (f : Function) : option AgentService :=
  if decide (f ∈ functions (current_agent svc)) then Some (call f svc).1 else None.

(** A turn-processing history: the calls made one after the other, each by the
    agent active at that moment. *)
Fixpoint invoke_all (svc : AgentService) (fs : list Function) : option AgentService :=
  match fs with
  | [] => Some svc
  | f :: fs' =>
      match invoke svc f with
      | Some svc' => invoke_all svc' fs'
      | None => None
      end
  end.

(** [reset_agent] and [reset_messages]. *)
Definition reset_agent (svc : AgentService) : AgentService :=
  {| messages := messages svc; current_agent := TRIAGE |}.
Definition reset_messages (svc : AgentService) : AgentService :=
  {| messages := []; current_agent := current_agent svc |}.

(** [get_current_agent_name]. *)
Definition get_current_agent_name (svc : AgentService) : string :=
  match current_agent svc with
  | TRIAGE => "TriageAgent"
  | ACCOUNTS => "AccountsAgent"
  | PAYMENTS => "PaymentsAgent"
  | APPLICATIONS => "ApplicationsAgent"
  end.

(** The hand-off edges the code gives an agent: the targets of the transfer
    methods among its functions. *)
Definition handoffs (a : Agent) : list Agent :=
  omap handoff_target (functions a).

(** The transition sets as the specification words them (section 4.4). *)
Definition transition_set (a : Agent) : list Agent :=
  match a with
  | TRIAGE => [ACCOUNTS; PAYMENTS; APPLICATIONS]
  | ACCOUNTS => [PAYMENTS]
  | PAYMENTS => [TRIAGE]
  | APPLICATIONS => [TRIAGE]
  end.

(** The consecutive pairs of active agents along a history. *)
Fixpoint edges (svc : AgentService) (fs : list Function) : list (Agent * Agent) :=
  match fs with
  | [] => []
  | f :: fs' =>
      match invoke svc f with
      | Some svc' =>
          match handoff_target f with
          | Some _ => (current_agent svc, current_agent svc') :: edges svc' fs'
          | None => edges svc' fs'
          end
      | None => []
      end
  end.

(** [run]: the new messages are appended to [self.messages]; the Swarm
    client is then called with the current agent and the whole history, which
    are returned here beside the new state (what the client answers is its
    own). *)
Definition run (svc : AgentService) (new_messages : list (string * string))
    : AgentService * (Agent * list (string * string)) :=
  let svc' := {| messages := messages svc ++ new_messages;
                 current_agent := current_agent svc |} in
  (svc', (current_agent svc', messages svc')).

(** What is done with an orchestrator between two resets of its history:
    runs, functions invoked by the current agent, and [reset_agent]. *)
Inductive Op :=
| OpRun (new_messages : list (string * string))
| OpInvoke (f : Function)
| OpResetAgent.

Definition apply_op (svc : AgentService) (op : Op) : option AgentService :=
  match op with
  | OpRun new_messages => Some (run svc new_messages).1
  | OpInvoke f => invoke svc f
  | OpResetAgent => Some (reset_agent svc)
  end.

Fixpoint apply_ops (svc : AgentService) (ops : list Op) : option AgentService :=
  match ops with
  | [] => Some svc
  | op :: ops' =>
      match apply_op svc op with
      | Some svc' => apply_ops svc' ops'
      | None => None
      end
  end.

(** The messages handed to [run] along a history, in order. *)
Definition run_inputs (ops : list Op) : list (string * string) :=
  concat (omap (λ op, match op with OpRun m => Some m | _ => None end) ops).

End Agents.

(* ===================================================================== *)
(** ** The Python built-ins that db/service.py uses on strings *)
(* ===================================================================== *)

Module Py.

(** Whitespace as [int] strips it (ASCII part of [str.isspace]). *)
Definition is_space (c : ascii) : bool :=
  let n := nat_of_ascii c in
  ((9 <=? n) && (n <=? 13) || (28 <=? n) && (n <=? 32))%nat.

Definition digit_of (c : ascii) : option Z :=
  let n := Z.of_nat (nat_of_ascii c) in
  if (48 <=? n) && (n <=? 57) then Some (n - 48) else None.

Fixpoint lstrip (s : string) : string :=
  match s with
  | EmptyString => EmptyString
  | String c r => if is_space c then lstrip r else s
  end.

Fixpoint rstrip (s : string) : string :=
  match s with
  | EmptyString => EmptyString
  | String c r =>
      match rstrip r with
      | EmptyString => if is_space c then EmptyString else String c EmptyString
      | r' => String c r'
      end
  end.

(** The digits of an integer literal: underscores are accepted one at a time
    between two digits. [prev] tells whether the last character was a digit. *)
Fixpoint int_digits (prev : bool) (acc : Z) (s : string) : option Z :=
  match s with
  | EmptyString => if prev then Some acc else None
  | String c r =>
      match digit_of c with
      | Some d => int_digits true (10 * acc + d) r
      | None => if Ascii.eqb c "_" && prev then int_digits false acc r else None
      end
  end.

(** [int(s)] in base 10; [None] stands for [ValueError]. CPython's limit on
    the number of digits of a literal is not modelled. *)
Definition int (s : string) : option Z :=
  match rstrip (lstrip s) with
  | EmptyString => None
  | String c r =>
      if Ascii.eqb c "+" then int_digits false 0 r
      else if Ascii.eqb c "-" then Z.opp <$> int_digits false 0 r
      else int_digits false 0 (String c r)
  end.

(** [s.replace("PAY", "")]: every occurrence, scanning from the left. *)
Fixpoint replace_PAY (s : string) : string :=
  match s with
  | EmptyString => EmptyString
  | String c s1 =>
      match s1 with
      | String c2 (String c3 r) =>
          if Ascii.eqb c "P" && Ascii.eqb c2 "A" && Ascii.eqb c3 "Y"
          then replace_PAY r
          else String c (replace_PAY s1)
      | _ => String c (replace_PAY s1)
      end
  end.

Definition digit_char (d : Z) : ascii := ascii_of_nat (48 + Z.to_nat d).

(** The decimal digits of [n >= 0], most significant first, pushed in front
    of [acc]. *)
Fixpoint dec_digits (fuel : nat) (n : Z) (acc : string) : string :=
  match fuel with
  | O => acc
  | S fuel' =>
      let acc' := String (digit_char (n mod 10)) acc in
      if n / 10 =? 0 then acc' else dec_digits fuel' (n / 10) acc'
  end.

Definition str_of_nonneg (n : Z) : string :=
  dec_digits (S (Z.to_nat n)) n EmptyString.

Fixpoint zeros (k : nat) (s : string) : string :=
  match k with
  | O => s
  | S k' => String "0" (zeros k' s)
  end.

(** [f"{n:03d}"]: zero padding to width 3, the sign counted in the width. *)
Definition format_03d (n : Z) : string :=
  if n <? 0 then
    let d := str_of_nonneg (- n) in
    String "-" (zeros (2 - String.length d) d)
  else
    let d := str_of_nonneg n in
    zeros (3 - String.length d) d.

(** Strings made of decimal digits only. *)
Definition is_digit (c : ascii) : bool :=
  match digit_of c with Some _ => true | None => false end.

Fixpoint digits_only (s : string) : bool :=
  match s with
  | EmptyString => true
  | String c r => is_digit c && digits_only r
  end.

End Py.

(* ===================================================================== *)
(** ** db/service.py *)
(* ===================================================================== *)

Module Db.

(** The dictionaries stored in the database (models.py gives their keys).
    A field is [None] when the key is absent from the dictionary. *)
Record User := mkUser {
  name : option string;
  accounts_of : option (list string);
  details : gmap string string          (* ssn, address, date_of_birth, email, phone *)
}.

Record Account := mkAccount {
  balance : option float;
  statements : option (gmap string string)
}.

Record Payment := mkPayment {
  from_account : string;
  to_account : string;
  amount : float;
  date : string;
  status : string
}.

(** [self.db]: a dictionary with the keys "users", "accounts", "payments",
    each of which may be absent ([self.db.get(key, {})]). *)
Record DB := mkDB {
  users : option (gmap string User);
  accounts : option (gmap string Account);
  payments : option (gmap string Payment)
}.

(** Truth value of a dictionary: false when empty. *)
Definition user_nonempty (u : User) : bool :=
  match name u, accounts_of u with
  | None, None => negb (bool_decide (details u = ∅))
  | _, _ => true
  end.

Definition account_nonempty (a : Account) : bool :=
  match balance a, statements a with
  | None, None => false
  | _, _ => true
  end.

(** Truth value of an [Optional[dict]]: [None] and the empty dictionary are
    false. *)
Definition truthy {A} (nonempty : A → bool) (o : option A) : bool :=
  match o with
  | Some a => nonempty a
  | None => false
  end.

Definition get_users (db : DB) : gmap string User := default ∅ (users db).
Definition get_user (db : DB) (user_id : string) : option User := get_users db !! user_id.
Definition get_accounts (db : DB) : gmap string Account := default ∅ (accounts db).
Definition get_account (db : DB) (account_id : string) : option Account :=
  get_accounts db !! account_id.
Definition get_payments (db : DB) : gmap string Payment := default ∅ (payments db).
Definition get_payment (db : DB) (payment_id : string) : option Payment :=
  get_payments db !! payment_id.

Definition update_user (db : DB) (user_id : string) (user_data : User) : DB :=
  {| users := Some (<[user_id := user_data]> (get_users db));
     accounts := accounts db; payments := payments db |}.

Definition update_account (db : DB) (account_id : string) (account_data : Account) : DB :=
  {| users := users db;
     accounts := Some (<[account_id := account_data]> (get_accounts db));
     payments := payments db |}.

Definition update_payment (db : DB) (payment_id : string) (payment_data : Payment) : DB :=
  {| users := users db; accounts := accounts db;
     payments := Some (<[payment_id := payment_data]> (get_payments db)) |}.

Definition delete_payment (db : DB) (payment_id : string) : DB * bool :=
  match get_payments db !! payment_id with
  | Some _ =>
      ({| users := users db; accounts := accounts db;
          payments := Some (delete payment_id (get_payments db)) |}, true)
  | None => (db, false)
  end.

Definition get_user_accounts (db : DB) (user_id : string) : list string :=
  match get_user db user_id with
  | Some u => if user_nonempty u then default [] (accounts_of u) else []
  | None => []
  end.

(** The body of the loop of [_generate_payment_id] on one key. *)
Definition max_step (payment_id : string) (max_num : Z) : Z :=
  match Py.int (Py.replace_PAY payment_id) with
  | Some num => Z.max max_num num
  | None => max_num
  end.

(** The largest number among the keys; the loop runs over the keys in the
    dictionary's order, which the maximum does not depend on. *)
Definition max_payment_num (keys : list string) : Z := foldr max_step 0 keys.

Definition _generate_payment_id (db : DB) : string :=
  let max_num := max_payment_num (map_to_list (get_payments db)).*1 in
  "PAY" +:+ Py.format_03d (max_num + 1).

(** The way a call ends: a returned value or an uncaught [KeyError]. *)
Inductive outcome (A : Type) :=
| Return (v : A)
| KeyError (key : string).
Arguments Return {A} v.
Arguments KeyError {A} key.

(** [acc["balance"] = v] on the account stored under [account_id]: the
    dictionary of the account is updated in place. *)
Definition set_balance (db : DB) (account_id : string) (a : Account) (v : float) : DB :=
  {| users := users db;
     accounts := Some (<[account_id := {| balance := Some v; statements := statements a |}]>
                         (get_accounts db));
     payments := payments db |}.

(** [transfer_funds]. [today] is [datetime.now().strftime("%Y-%m-%d")].
    [from_acc] and [to_acc] are references to the dictionaries stored in the
    database: when both ids are the same they are one dictionary, and the
    credit reads the balance the debit has just written. *)
Definition transfer_funds (today : string) (db : DB)
    (from_account to_account : string) (amount : float) : DB * outcome (option string) :=
  match get_account db from_account, get_account db to_account with
  | Some from_acc, Some to_acc =>
      if negb (account_nonempty from_acc) || negb (account_nonempty to_acc)
      then (db, Return None)
      else if PrimFloat.ltb (default 0%float (balance from_acc)) amount
      then (db, Return None)
      else
        match balance from_acc with
        | None => (db, KeyError "balance")
        | Some b =>
            let debited := PrimFloat.sub b amount in
            let db1 := set_balance db from_account from_acc debited in
            let to_acc :=
              if decide (from_account = to_account)
              then {| balance := Some debited; statements := statements from_acc |}
              else to_acc in
            match balance to_acc with
            | None => (db1, KeyError "balance")
            | Some b' =>
                let db2 := set_balance db1 to_account to_acc (PrimFloat.add b' amount) in
                let payment_id := _generate_payment_id db2 in
                let payment_data :=
                  {| from_account := from_account; to_account := to_account;
                     amount := amount; date := today; status := "Completed" |} in
                (update_payment db2 payment_id payment_data, Return (Some payment_id))
            end
        end
  | _, _ => (db, Return None)
  end.

(** The balance stored for an account, when it has one. *)
Definition balance_of (db : DB) (account_id : string) : option float :=
  get_account db account_id ≫= balance.

(** *** The calls database

    [self.calls_db] maps a call id to the dictionary of the call; [V] is the
    type of the values of such a dictionary. *)
Section CallsDb.
Context {V : Type}.

Definition get_all_calls (calls_db : gmap string (gmap string V)) := calls_db.

Definition get_call (calls_db : gmap string (gmap string V)) (call_id : string)
    : option (gmap string V) :=
  calls_db !! call_id.

(** [update_call]: [dict.update] on the stored call when the id is known (the
    keys of [call_data] win), a plain store otherwise. *)
Definition update_call (calls_db : gmap string (gmap string V)) (call_id : string)
    (call_data : gmap string V) : gmap string (gmap string V) :=
  match calls_db !! call_id with
  | Some call => <[call_id := call_data ∪ call]> calls_db
  | None => <[call_id := call_data]> calls_db
  end.

Definition delete_call (calls_db : gmap string (gmap string V)) (call_id : string)
    : gmap string (gmap string V) * bool :=
  match calls_db !! call_id with
  | Some _ => (delete call_id calls_db, true)
  | None => (calls_db, false)
  end.

End CallsDb.

End Db.

(* ===================================================================== *)
(** ** api/payments.py and api/users.py *)
(* ===================================================================== *)

Module Api.
Import Db.

(** What an endpoint answers: the returned dictionary, or the
    [HTTPException] it raises. *)
Inductive response (A : Type) :=
| Ok (body : A)
| HTTPException (status_code : Z) (detail : string).
Arguments Ok {A} body.
Arguments HTTPException {A} status_code detail.

(** [PaymentRequest]. *)
Record PaymentRequest := mkPaymentRequest {
  req_from_account : string;
  req_to_account : string;
  req_amount : float
}.

(** The dictionary of a successful transfer. *)
Record TransferResult := mkTransferResult {
  res_status : string;
  res_payment_id : string;
  res_from_account : string;
  res_to_account : string;
  res_amount : float
}.

(** Truth value of an [Optional[str]]: [None] and the empty string are
    false. *)
Definition str_truthy (o : option string) : bool :=
  match o with
  | Some s => negb (bool_decide (s = ""))
  | None => false
  end.

(** POST /payments/transfer. The checks raise in the order of the source; an
    exception of [db_service.transfer_funds] that is no [HTTPException] is
    caught and answered with status 500. *)
Definition transfer_funds (today : string) (db : DB) (request : PaymentRequest)
    : DB * response TransferResult :=
  let from_account := get_account db (req_from_account request) in
  let to_account := get_account db (req_to_account request) in
  if negb (truthy account_nonempty from_account)
  then (db, HTTPException 404 "Source account not found")
  else if negb (truthy account_nonempty to_account)
  then (db, HTTPException 404 "Destination account not found")
  else if PrimFloat.leb (req_amount request) 0%float
  then (db, HTTPException 400 "Amount must be positive")
  else if PrimFloat.ltb (default 0%float (from_account ≫= balance)) (req_amount request)
  then (db, HTTPException 400 "Insufficient funds")
  else
    match Db.transfer_funds today db (req_from_account request) (req_to_account request)
            (req_amount request) with
    | (db', Return payment_id) =>
        if negb (str_truthy payment_id)
        then (db', HTTPException 500 "Transfer failed")
        else (db', Ok {| res_status := "success";
                         res_payment_id := default "" payment_id;
                         res_from_account := req_from_account request;
                         res_to_account := req_to_account request;
                         res_amount := req_amount request |})
    | (db', KeyError _) => (db', HTTPException 500 "Failed to process transfer")
    end.

(** The dictionary of GET /users/{user_id}/accounts. *)
Record UserAccounts := mkUserAccounts {
  ua_user_id : string;
  ua_account_count : nat;
  ua_accounts : gmap string Account
}.

(** The loop of [get_user_accounts]: the accounts of the list that the
    database holds (and that are not empty), keyed by their id. *)
Definition collect_accounts (db : DB) (account_ids : list string) : gmap string Account :=
  foldl (λ accounts account_id,
           match get_account db account_id with
           | Some account =>
               if account_nonempty account then <[account_id := account]> accounts
               else accounts
           | None => accounts
           end) ∅ account_ids.

(** GET /users/{user_id}/accounts. *)
Definition get_user_accounts (db : DB) (user_id : string) : response UserAccounts :=
  let user := get_user db user_id in
  match user with
  | Some u =>
      if user_nonempty u then
        let accounts := collect_accounts db (default [] (accounts_of u)) in
        Ok {| ua_user_id := user_id; ua_account_count := size accounts;
              ua_accounts := accounts |}
      else HTTPException 404 "User not found"
  | None => HTTPException 404 "User not found"
  end.

End Api.

(* ===================================================================== *)
(** ** utils/helpers.py *)
(* ===================================================================== *)

Module Helpers.
Import Db.

Definition validate_account_id (db : DB) (account_id : string) : bool :=
  truthy account_nonempty (get_account db account_id).

(** A payment dictionary is never empty here: it has its five keys. *)
Definition validate_payment_id (db : DB) (payment_id : string) : bool :=
  bool_decide (is_Some (get_payment db payment_id)).

(** [generate_payment_id]: the number of payments plus one. *)
Definition generate_payment_id (db : DB) : string :=
  let payment_number := Z.of_nat (size (get_payments db)) + 1 in
  "PAY" +:+ Py.format_03d payment_number.

Definition validate_amount (amount : float) : bool :=
  negb (PrimFloat.leb amount 0%float).

End Helpers.

(* ===================================================================== *)
(** ** services/storage.py *)
(* ===================================================================== *)

Module Storage.

Definition PINATA_API_URL : string := "https://api.pinata.cloud/pinning/pinFileToIPFS".
Definition PINATA_GATEWAY_BASE : string := "https://gateway.pinata.cloud/ipfs".

(** [PinataService]: the two credentials read from the settings. *)
Record PinataService := mkPinataService {
  api_key : string;
  api_secret : string
}.

(** [s.split(sep)] for a separator of one character: the pieces between the
    separators, at least one. *)
Fixpoint split (sep : ascii) (s : string) : list string :=
  match s with
  | EmptyString => [EmptyString]
  | String c r =>
      if Ascii.eqb c sep then EmptyString :: split sep r
      else match split sep r with
           | piece :: pieces => String c piece :: pieces
           | [] => [String c EmptyString]
           end
  end.

(** [os.path.basename]: what follows the last "/". *)
Definition basename (path : string) : string :=
  default EmptyString (last (split "/" path)).

(** The request handed to [requests.post]. *)
Record Request := mkRequest {
  url : string;
  headers : list (string * string);
  file_name : string;
  content_type : string;
  metadata_name : string;
  metadata_type : string;
  uploaded_at : string
}.

(** What [requests.post] and the reading of its answer come to: status 200
    with the "IpfsHash" of the JSON body (which may lack it), another status,
    or an exception. *)
Inductive Reply :=
| Status200 (IpfsHash : option string)
| StatusOther (status_code : Z) (text : string)
| Raises.

(** What the service finds outside: the files, whether they can be opened,
    the clock and the Pinata API. *)
Record World := mkWorld {
  isfile : string → bool;
  can_open : string → bool;
  now : string;
  post : Request → Reply
}.

Record Upload := mkUpload {
  IpfsHash : option string;
  PinataURL : string;
  status : string
}.

Definition get_gateway_url (ipfs_hash : string) : string :=
  PINATA_GATEWAY_BASE +:+ "/" +:+ ipfs_hash.

(** [_upload_file_to_pinata]; [None] in the first component stands for the
    [IndexError] of [filename_parts[-2]], raised before any request. The
    requests made are listed beside the result. An absent "IpfsHash" is
    formatted as "None" in the URL. *)
Definition _upload_file_to_pinata (svc : PinataService) (w : World)
    (document_type pdf_path : string) : option (list Request * option Upload) :=
  match reverse (split "_" pdf_path) with
  | last_part :: before_last :: _ =>
      let request :=
        {| url := PINATA_API_URL;
           headers := [("pinata_api_key", api_key svc);
                       ("pinata_secret_api_key", api_secret svc)];
           file_name := basename pdf_path;
           content_type := "application/pdf";
           metadata_name := document_type +:+ "_" +:+ before_last +:+ "_" +:+ last_part;
           metadata_type := document_type;
           uploaded_at := now w |} in
      match post w request with
      | Status200 ipfs_hash =>
          Some ([request],
                Some {| IpfsHash := ipfs_hash;
                        PinataURL := PINATA_GATEWAY_BASE +:+ "/" +:+ default "None" ipfs_hash;
                        status := "success" |})
      | StatusOther _ _ => Some ([request], None)
      | Raises => Some ([request], None)
      end
  | _ => None
  end.

(** [upload_pdf]: every exception ends in [None]. *)
Definition upload_pdf (svc : PinataService) (w : World) (pdf_path document_type : string)
    : list Request * option Upload :=
  if bool_decide (api_key svc = "") || bool_decide (api_secret svc = "") then ([], None)
  else if negb (isfile w pdf_path) then ([], None)
  else if negb (can_open w pdf_path) then ([], None)
  else match _upload_file_to_pinata svc w document_type pdf_path with
       | Some r => r
       | None => ([], None)
       end.

(** The character occurs in the string. *)
Fixpoint occurs (c : ascii) (s : string) : bool :=
  match s with
  | EmptyString => false
  | String c' r => Ascii.eqb c' c || occurs c r
  end.

End Storage.

(* ===================================================================== *)
(** ** ws/voice.py *)
(* ===================================================================== *)

Module Voice.

(** *** models.py: the messages of the Retell protocol *)

Inductive Role := agent | user | system.

Record Utterance := mkUtterance {
  role : Role;
  utterance_content : string
}.

Inductive InteractionType := response_required | reminder_required.

(** [ResponseRequiredRequest]; the fields are [interaction_type],
    [response_id] and [transcript]. *)
Record ResponseRequiredRequest := mkRequest {
  rr_interaction_type : InteractionType;
  rr_response_id : Z;
  rr_transcript : list Utterance
}.

(** [LLMResponse]; the fields are [response_id], [content],
    [content_complete], [end_call] and [transfer_number]. *)
Record LLMResponse := mkResponse {
  resp_response_id : Z;
  resp_content : string;
  content_complete : bool;
  end_call : option bool;
  transfer_number : option string
}.

(** [request_json], read the way [handle_message] reads it: the
    [interaction_type] and the keys each branch looks up with [.get]. A key
    that is absent is [None]. *)
Inductive Message :=
| call_details (from_number : option string)
| ping_pong (timestamp : option Z)
| update_only (transcript : list Utterance)
| response (interaction_type : InteractionType) (response_id : option Z)
           (transcript : list Utterance)
| other (interaction_type : string).

(** What [websocket.send_json] is called with. *)
Inductive Outbound :=
| OutConfig (config : list (string * bool))
| OutPingPong (timestamp : option Z)
| OutResponse (event : LLMResponse).

(** constants.py (imported by voice.py as RETELL_DEFAULT_CONFIG). *)
Definition RETELL_CONFIG : list (string * bool) :=
  [("auto_reconnect", true); ("call_details", true)].

(** *** services/llm_service.py

    The class is not part of the sources at hand. Its constructor and the
    three methods [handle_message] calls are the operations of an interface;
    [draft_response] gives the events the asynchronous generator yields for a
    request, in order (a generator that raises is one that stops there: the
    handler catches the exception and leaves the loop). *)
Class LlmServiceOps := {
  LlmService : Type;
  LlmService_new : LlmService;
  set_user_info : LlmService → option string → option string → LlmService;
  draft_begin_message : LlmService → LLMResponse;
  draft_response : LlmService → ResponseRequiredRequest → list LLMResponse
}.

Section Handler.
Context `{ops : LlmServiceOps}.

(** *** The state of one connection

    [handle_message] runs as one asyncio task per inbound message. A task of
    a response request is suspended either in the generator ([AwaitNext]) or
    in [send_json] after it has handed an event over ([AwaitSend]). *)
Inductive Suspended := AwaitNext | AwaitSend | Finished.

Record Task := mkTask {
  request_obj : ResponseRequiredRequest;
  events : list LLMResponse;        (* what the generator has yet to yield *)
  at_point : Suspended
}.

(** The two [nonlocal] variables, the tasks in flight and the messages passed
    to [send_json], oldest first. *)
Record Session := mkSession {
  llm_client : option LlmService;
  response_id : Z;
  tasks : list Task;
  sent : list Outbound
}.

(** After [websocket.accept()] and the config message. *)
Definition init : Session :=
  {| llm_client := None; response_id := 0; tasks := [];
     sent := [OutConfig RETELL_CONFIG] |}.

Definition send_json (st : Session) (m : Outbound) : Session :=
  {| llm_client := llm_client st; response_id := response_id st;
     tasks := tasks st; sent := sent st ++ [m] |}.

Definition set_llm_client (st : Session) (c : LlmService) : Session :=
  {| llm_client := Some c; response_id := response_id st;
     tasks := tasks st; sent := sent st |}.

Definition set_response_id (st : Session) (r : Z) : Session :=
  {| llm_client := llm_client st; response_id := r;
     tasks := tasks st; sent := sent st |}.

Definition set_tasks (st : Session) (ts : list Task) : Session :=
  {| llm_client := llm_client st; response_id := response_id st;
     tasks := ts; sent := sent st |}.

(** ["+1-" + n[2:5] + "-" + n[5:8] + "-" + n[8:]]; slices clamp. *)
Definition format_number (from_number : string) : string :=
  "+1-" +:+ substring 2 3 from_number +:+ "-" +:+ substring 5 3 from_number +:+ "-"
        +:+ substring 8 (String.length from_number - 8) from_number.

(** [handle_message] up to its first suspension. [db] is the state of the
    global [db_service] when the message is handled. *)
Definition handle_message (db : Db.DB) (st : Session) (request_json : Message) : Session :=
  match request_json with
  | call_details from_number =>
      let from_number := default "" from_number in
      if bool_decide (from_number = "") then st
      else
        let formatted_number := format_number from_number in
        let user := Db.get_user db formatted_number in
        if Db.truthy Db.user_nonempty user then
          let c := set_user_info LlmService_new (user ≫= Db.name) (Some formatted_number) in
          send_json (set_llm_client st c) (OutResponse (draft_begin_message c))
        else
          let c := set_user_info LlmService_new (Some "there") None in
          send_json (set_llm_client st c) (OutResponse (draft_begin_message c))
  | ping_pong timestamp => send_json st (OutPingPong timestamp)
  | update_only _ => st
  | response interaction_type rid transcript =>
      let st := set_response_id st (default 0 rid) in
      match llm_client st with
      | None => st
      | Some c =>
          let request_obj :=
            {| rr_interaction_type := interaction_type;
               rr_response_id := response_id st;
               rr_transcript := transcript |} in
          set_tasks st (tasks st ++ [ {| request_obj := request_obj;
                                         events := draft_response c request_obj;
                                         at_point := AwaitNext |} ])
      end
  | other _ => st
  end.

(** One more stretch of the loop
    [async for event in draft_response(..): send_json(event); if .. : break]
    of task [n], from where it is suspended to its next suspension. *)
Definition resume (st : Session) (n : nat) : Session :=
  match tasks st !! n with
  | None => st
  | Some t =>
      match at_point t with
      | Finished => st
      | AwaitNext =>
          match events t with
          | [] => set_tasks st (<[n := mkTask (request_obj t) [] Finished]> (tasks st))
          | event :: rest =>
              send_json
                (set_tasks st (<[n := mkTask (request_obj t) rest AwaitSend]> (tasks st)))
                (OutResponse event)
          end
      | AwaitSend =>
          if rr_response_id (request_obj t) <? response_id st
          then set_tasks st (<[n := mkTask (request_obj t) (events t) Finished]> (tasks st))
          else set_tasks st (<[n := mkTask (request_obj t) (events t) AwaitNext]> (tasks st))
      end
  end.

(** What the event loop does next: start the task of the next inbound
    message, or resume a suspended task. *)
Inductive Action :=
| Receive (db : Db.DB) (request_json : Message)
| Resume (n : nat).

Definition step (st : Session) (a : Action) : Session :=
  match a with
  | Receive db request_json => handle_message db st request_json
  | Resume n => resume st n
  end.

Definition run (st : Session) (schedule : list Action) : Session :=
  foldl step st schedule.

(** The messages sent between an earlier and a later state. *)
Definition delivered_after (before after : Session) : list Outbound :=
  drop (length (sent before)) (sent after).

(** The fragments task [n] sends along a schedule. *)
Fixpoint sent_by (n : nat) (st : Session) (schedule : list Action) : list Outbound :=
  match schedule with
  | [] => []
  | a :: schedule' =>
      match a with
      | Resume m => if decide (m = n) then delivered_after st (step st a) else []
      | Receive _ _ => []
      end ++ sent_by n (step st a) schedule'
  end.

(** The response id a message accepts as the latest one, if it is a request
    for a response. *)
Definition requested (a : Action) : option Z :=
  match a with
  | Receive _ (response _ rid _) => Some (default 0 rid)
  | _ => None
  end.

(** The timestamps of the ping_pong replies among sent messages, and of the
    ping_pong messages of a schedule, in order. *)
Definition pongs (ms : list Outbound) : list (option Z) :=
  omap (λ m, match m with OutPingPong timestamp => Some timestamp | _ => None end) ms.

Definition pings (schedule : list Action) : list (option Z) :=
  omap (λ a, match a with
             | Receive _ (ping_pong timestamp) => Some timestamp
             | _ => None
             end) schedule.

(** No message of the schedule is a call_details with a caller number. *)
Definition no_caller_number (schedule : list Action) : bool :=
  forallb (λ a, match a with
                | Receive _ (call_details from_number) =>
                    bool_decide (default "" from_number = "")
                | _ => true
                end) schedule.

(** No request of the schedule records a response id at or below [s]. *)
Definition stays_above (s : Z) (schedule : list Action) : bool :=
  forallb (λ a, match requested a with Some r => s <? r | None => true end) schedule.

(** The final fragments of sequence [s] among sent messages. *)
Definition is_final_of (s : Z) (m : Outbound) : bool :=
  match m with
  | OutResponse e => bool_decide (resp_response_id e = s) && content_complete e
  | _ => false
  end.

Definition finals_of (s : Z) (ms : list Outbound) : list Outbound :=
  filter (λ m, is_final_of s m = true) ms.

End Handler.

(** A generator for the examples: the user's name in the greeting, and for a
    request one partial fragment followed by the final one, both carrying the
    response id of the request. *)
#[local] Instance demo_ops : LlmServiceOps := {|
  LlmService := option string * option string;
  LlmService_new := (None, None);
  set_user_info := λ _ name phone, (name, phone);
  draft_begin_message := λ c,
    mkResponse 0 ("Hello " +:+ default "" c.1) true (Some false) None;
  draft_response := λ _ r,
    [mkResponse (rr_response_id r) "One moment" false (Some false) None;
     mkResponse (rr_response_id r) "Done" true (Some false) None]
|}.

Definition demo_db : Db.DB :=
  {| Db.users := Some {[ "+1-415-555-0000" :=
                          Db.mkUser (Some "Ada") (Some ["ACC1"]) ∅ ]};
     Db.accounts := None; Db.payments := None |}.

End Voice.

(* ===================================================================== *)
(** ** Sample data *)
(* ===================================================================== *)

Module Samples.
Import Db.

(** Two accounts and one earlier payment. *)
Definition bank : DB :=
  {| users := None;
     accounts := Some (<["ACC1" := mkAccount (Some 1000%float) (Some ∅)]>
                      (<["ACC2" := mkAccount (Some 250%float) (Some ∅)]> ∅));
     payments := Some {[ "PAY001" := mkPayment "ACC2" "ACC1" 40%float "2024-04-30" "Completed" ]} |}.

(** A source balance above 2^53, where binary64 numbers are 2 apart. *)
Definition large_bank : DB :=
  {| users := None;
     accounts := Some (<["ACC1" := mkAccount (Some 1e16%float) (Some ∅)]>
                      (<["ACC2" := mkAccount (Some 0%float) (Some ∅)]> ∅));
     payments := None |}.

(** A call from a known number; a first request whose task has sent its
    first fragment, passed its check and waits in the generator for the next
    event; then a second request. *)
Section Calls.
Import Voice.
#[local] Existing Instance demo_ops.

Definition call_started : list Action :=
  [Receive demo_db (call_details (Some "+14155550000"))].

Definition greeted : Session := run init call_started.

Definition first_request_running : Session :=
  run greeted [Receive demo_db (response response_required (Some 1) []);
               Resume 0; Resume 0].

Definition second_request_accepted : Session :=
  step first_request_running (Receive demo_db (response response_required (Some 2) [])).

Definition partial_fragment (s : Z) : LLMResponse :=
  mkResponse s "One moment" false (Some false) None.

Definition final_fragment (s : Z) : LLMResponse :=
  mkResponse s "Done" true (Some false) None.

End Calls.

End Samples.

(* ===================================================================== *)
(** ** Hand-offs between agents *)
(* ===================================================================== *)

Section AgentsFacts.
Import Agents.

(** The edges the constructor wires are those of the specification. *)
Lemma handoffs_transition_set (a : Agent) : handoffs a = transition_set a.
Proof. by destruct a. Qed.

Lemma handoff_target_handoffs (a : Agent) (f : Function) (b : Agent) :
  f ∈ functions a → handoff_target f = Some b → b ∈ handoffs a.
Proof.
  intros Hf Hb. unfold handoffs. apply list_elem_of_omap. eauto.
Qed.

Lemma invoke_Some (svc svc' : AgentService) (f : Function) :
  invoke svc f = Some svc' →
  f ∈ functions (current_agent svc) ∧ svc' = (call f svc).1.
Proof.
  unfold invoke. case_decide; [|done]. intros [= <-]. done.
Qed.

Lemma call_current_agent (svc : AgentService) (f : Function) :
  current_agent (call f svc).1 = default (current_agent svc) (handoff_target f).
Proof. unfold call. by destruct (handoff_target f). Qed.

Lemma call_domain_function (svc : AgentService) (f : Function) :
  handoff_target f = None → (call f svc).1 = svc.
Proof. unfold call. by intros ->. Qed.

(** One invocation by the active agent moves along a declared edge, or leaves
    the orchestrator as it is when the function is a domain action. *)
Lemma invoke_step (svc svc' : AgentService) (f : Function) :
  invoke svc f = Some svc' →
  match handoff_target f with
  | Some b => current_agent svc' = b ∧ b ∈ transition_set (current_agent svc)
  | None => svc' = svc
  end.
Proof.
  intros [Hf ->]%invoke_Some.
  destruct (handoff_target f) as [b|] eqn:Hb.
  - split.
    + by rewrite call_current_agent, Hb.
    + rewrite <- handoffs_transition_set. by eapply handoff_target_handoffs.
  - by apply call_domain_function.
Qed.

Lemma edges_declared (fs : list Function) :
  ∀ svc e, e ∈ edges svc fs → e.2 ∈ transition_set e.1.
Proof.
  induction fs as [|f fs IH]; intros svc e; simpl.
  - by intros ?%elem_of_nil.
  - destruct (invoke svc f) as [svc'|] eqn:Hinv; [|by intros ?%elem_of_nil].
    pose proof (invoke_step _ _ _ Hinv) as Hstep.
    destruct (handoff_target f) as [b|]; [|by apply IH].
    intros [->|He]%elem_of_cons; [|by eapply IH].
    simpl. by destruct Hstep as [-> ?].
Qed.

(** C3. Every orchestrator starts with the triage agent as its one current
    agent; the hand-off targets wired into each agent are exactly triage to
    accounts, payments and applications, accounts to payments, payments to
    triage and applications to triage; a function invoked by the current agent
    either is a transfer, after which the current agent is its target and a
    member of the invoker's transition set, or changes nothing; and along any
    history of invocations every edge taken is a declared one. *)
Theorem handoff_state_machine :
  current_agent init = TRIAGE ∧
  (∀ a, handoffs a = transition_set a) ∧
  (∀ svc f svc', invoke svc f = Some svc' →
     match handoff_target f with
     | Some b => current_agent svc' = b ∧ b ∈ transition_set (current_agent svc)
     | None => svc' = svc
     end) ∧
  (∀ svc fs e, e ∈ edges svc fs → e.2 ∈ transition_set e.1).
Proof.
  split; [done|]. split; [apply handoffs_transition_set|].
  split; [intros svc f svc'; apply invoke_step|]. intros svc fs. apply edges_declared.
Qed.

(** The triage agent hands the call to the accounts agent, which hands it to
    the payments agent. *)
Lemma handoff_state_machine_witness :
  invoke init transfer_to_accounts = Some (mkAgentService [] ACCOUNTS) ∧
  ACCOUNTS ∈ transition_set TRIAGE ∧
  (ACCOUNTS, PAYMENTS).2 ∈ transition_set (ACCOUNTS, PAYMENTS).1.
Proof.
  split; [reflexivity|]. split.
  - exact (proj2 (proj1 (proj2 (proj2 handoff_state_machine))
                    init transfer_to_accounts (mkAgentService [] ACCOUNTS) eq_refl)).
  - apply (proj2 (proj2 (proj2 handoff_state_machine)) init
             [transfer_to_accounts; transfer_to_payments]).
    vm_compute. apply elem_of_cons; right. apply elem_of_cons; by left.
Defined.

(** A function the current agent was not given cannot be invoked: the
    accounts agent has no way back to triage. *)
Example accounts_cannot_reach_triage (msgs : list (string * string)) :
  invoke (mkAgentService msgs ACCOUNTS) transfer_back_to_triage = None.
Proof. reflexivity. Qed.

End AgentsFacts.

(* ===================================================================== *)
(** ** Reading back a formatted payment number *)
(* ===================================================================== *)

Section PyFacts.
Import Py.

#[local] Arguments digit_char : simpl never.
#[local] Arguments digit_of : simpl never.
#[local] Arguments is_space : simpl never.

#[local] Arguments is_digit : simpl never.

(** A digit is no whitespace, no sign and not the letter P. *)
Lemma is_digit_other (c : ascii) :
  is_digit c = true →
  is_space c = false ∧ Ascii.eqb c "P" = false ∧ Ascii.eqb c "+" = false ∧
  Ascii.eqb c "-" = false.
Proof.
  destruct c as [[] [] [] [] [] [] [] []]; vm_compute; intros H;
    solve [discriminate H | repeat split].
Qed.

Lemma digit_of_digit_char (d : Z) :
  0 ≤ d < 10 → digit_of (digit_char d) = Some d.
Proof.
  intros Hd.
  assert (d = 0 ∨ d = 1 ∨ d = 2 ∨ d = 3 ∨ d = 4 ∨ d = 5 ∨ d = 6 ∨ d = 7 ∨ d = 8 ∨ d = 9)
    as Hcases by lia.
  repeat (destruct Hcases as [-> | Hcases]; [reflexivity|]). by subst.
Qed.

Lemma is_digit_digit_char (d : Z) : 0 ≤ d < 10 → is_digit (digit_char d) = true.
Proof. intros Hd. unfold is_digit. by rewrite digit_of_digit_char. Qed.

Lemma digits_only_dec_digits (fuel : nat) :
  ∀ n acc, digits_only acc = true → digits_only (dec_digits fuel n acc) = true.
Proof.
  induction fuel as [|fuel IH]; intros n acc Hacc; cbn [dec_digits]; [done|].
  assert (digits_only (String (digit_char (n mod 10)) acc) = true) as Hacc'.
  { cbn [digits_only]. rewrite is_digit_digit_char.
    - by rewrite Hacc.
    - apply Z.mod_pos_bound. lia. }
  destruct (n / 10 =? 0); [done|]. by apply IH.
Qed.

Lemma digits_only_zeros (k : nat) (s : string) :
  digits_only s = true → digits_only (zeros k s) = true.
Proof.
  intros Hs. induction k as [|k IH]; cbn [zeros digits_only]; [done|].
  by rewrite IH.
Qed.

Lemma dec_digits_nonempty (fuel : nat) (n : Z) (acc : string) :
  dec_digits (S fuel) n acc ≠ EmptyString.
Proof.
  revert n acc. induction fuel as [|fuel IH]; intros n acc.
  - cbn [dec_digits]. by destruct (n / 10 =? 0).
  - change (dec_digits (S (S fuel)) n acc)
      with (if n / 10 =? 0 then String (digit_char (n mod 10)) acc
            else dec_digits (S fuel) (n / 10) (String (digit_char (n mod 10)) acc)).
    destruct (n / 10 =? 0); [done|]. apply IH.
Qed.

Lemma zeros_nonempty (k : nat) (s : string) : s ≠ EmptyString → zeros k s ≠ EmptyString.
Proof. intros Hs. by destruct k. Qed.

Lemma replace_PAY_other (c : ascii) (s : string) :
  Ascii.eqb c "P" = false → replace_PAY (String c s) = String c (replace_PAY s).
Proof.
  intros HP. destruct s as [|c2 [|c3 r]]; try reflexivity.
  change (replace_PAY (String c (String c2 (String c3 r))))
    with (if Ascii.eqb c "P" && Ascii.eqb c2 "A" && Ascii.eqb c3 "Y"
          then replace_PAY r
          else String c (replace_PAY (String c2 (String c3 r)))).
  by rewrite HP.
Qed.

(** Digits contain no occurrence of "PAY". *)
Lemma replace_PAY_digits (s : string) : digits_only s = true → replace_PAY s = s.
Proof.
  induction s as [|c s1 IH]; [done|]. cbn [digits_only]. intros [Hc Hs1]%andb_prop.
  destruct (is_digit_other c Hc) as (_ & HP & _).
  by rewrite replace_PAY_other, IH.
Qed.

Lemma lstrip_digits (s : string) : digits_only s = true → lstrip s = s.
Proof.
  destruct s as [|c r]; [done|]. cbn [digits_only]. intros [Hc _]%andb_prop.
  destruct (is_digit_other c Hc) as (Hsp & _). cbn [lstrip]. by rewrite Hsp.
Qed.

Lemma rstrip_digits (s : string) : digits_only s = true → rstrip s = s.
Proof.
  induction s as [|c r IH]; [done|]. cbn [digits_only]. intros [Hc Hr]%andb_prop.
  destruct (is_digit_other c Hc) as (Hsp & _). cbn [rstrip]. rewrite (IH Hr), Hsp.
  by destruct r.
Qed.

Lemma int_digits_only (s : string) :
  digits_only s = true → s ≠ EmptyString → int s = int_digits false 0 s.
Proof.
  intros Hs Hne. unfold int. rewrite (lstrip_digits s Hs), (rstrip_digits s Hs).
  destruct s as [|c r]; [done|]. cbn [digits_only] in Hs.
  apply andb_prop in Hs as [Hc _].
  destruct (is_digit_other c Hc) as (_ & _ & -> & ->). done.
Qed.

Lemma int_digits_zero_digit (b : bool) (s : string) :
  int_digits b 0 (String "0" s) = int_digits true 0 s.
Proof. reflexivity. Qed.

Lemma int_digits_zeros (k : nat) (s : string) :
  int_digits true 0 (zeros k s) = int_digits true 0 s.
Proof.
  induction k as [|k IH]; [done|]. cbn [zeros]. by rewrite int_digits_zero_digit.
Qed.

Lemma int_digits_zeros_first (k : nat) (s : string) (b : bool) :
  (∀ b', int_digits b' 0 s = int_digits true 0 s) →
  int_digits b 0 (zeros k s) = int_digits true 0 s.
Proof.
  intros Hs. destruct k as [|k]; [apply Hs|]. cbn [zeros].
  rewrite int_digits_zero_digit. apply int_digits_zeros.
Qed.

Lemma int_digits_digit (b : bool) (a d : Z) (s : string) :
  0 ≤ d < 10 →
  int_digits b a (String (digit_char d) s) = int_digits true (10 * a + d) s.
Proof. intros Hd. cbn [int_digits]. by rewrite digit_of_digit_char. Qed.

(** Reading the digits of [n] yields [n], whatever follows them. *)
Lemma int_digits_dec_digits (fuel : nat) :
  ∀ n acc b, 0 ≤ n → (Z.to_nat n < fuel)%nat →
    int_digits b 0 (dec_digits fuel n acc) = int_digits true n acc.
Proof.
  induction fuel as [|fuel IH]; intros n acc b Hn Hfuel; [lia|].
  cbn [dec_digits]. pose proof (Z.mod_pos_bound n 10 ltac:(lia)) as Hmod.
  pose proof (Z.div_mod n 10 ltac:(lia)) as Hdiv.
  destruct (n / 10 =? 0) eqn:Hq.
  - apply Z.eqb_eq in Hq. rewrite int_digits_digit by done. f_equal. lia.
  - apply Z.eqb_neq in Hq.
    assert (0 < n / 10) as Hpos.
    { pose proof (Z.div_pos n 10 Hn ltac:(lia)). lia. }
    rewrite IH; [|lia|lia].
    rewrite int_digits_digit by done. f_equal. lia.
Qed.

(** [int] undoes the formatting of a number that is not negative. *)
Lemma int_format_03d (n : Z) : 0 ≤ n → int (format_03d n) = Some n.
Proof.
  intros Hn. unfold format_03d. rewrite (proj2 (Z.ltb_ge n 0) Hn).
  set (k := (3 - String.length (str_of_nonneg n))%nat).
  assert (digits_only (str_of_nonneg n) = true) as Hd
    by by apply digits_only_dec_digits.
  rewrite int_digits_only.
  - rewrite int_digits_zeros_first.
    + unfold str_of_nonneg. by rewrite int_digits_dec_digits by lia.
    + intros b'. unfold str_of_nonneg. by rewrite !int_digits_dec_digits by lia.
  - by apply digits_only_zeros.
  - apply zeros_nonempty, dec_digits_nonempty.
Qed.

Lemma digits_only_format_03d (n : Z) : 0 ≤ n → digits_only (format_03d n) = true.
Proof.
  intros Hn. unfold format_03d. rewrite (proj2 (Z.ltb_ge n 0) Hn).
  by apply digits_only_zeros, digits_only_dec_digits.
Qed.

Lemma replace_PAY_format_03d (n : Z) :
  0 ≤ n → replace_PAY ("PAY" +:+ format_03d n) = format_03d n.
Proof.
  intros Hn. pose proof (digits_only_format_03d n Hn) as Hd.
  change (replace_PAY (format_03d n) = format_03d n).
  by apply replace_PAY_digits.
Qed.

End PyFacts.

(* ===================================================================== *)
(** ** The funds transfer *)
(* ===================================================================== *)

Section DbFacts.
Import Db.

Lemma max_step_le (k : string) (m : Z) : m ≤ max_step k m.
Proof. unfold max_step. destruct (Py.int _); lia. Qed.

Lemma max_payment_num_nonneg (keys : list string) : 0 ≤ max_payment_num keys.
Proof.
  induction keys as [|k keys IH]; [done|].
  cbn [max_payment_num foldr]. fold (max_payment_num keys).
  pose proof (max_step_le k (max_payment_num keys)). lia.
Qed.

(** The number read from any key is at most the maximum of the loop. *)
Lemma max_payment_num_ge (keys : list string) (k : string) (n : Z) :
  k ∈ keys → Py.int (Py.replace_PAY k) = Some n → n ≤ max_payment_num keys.
Proof.
  intros Hk Hn. induction keys as [|k' keys IH]; [by apply elem_of_nil in Hk|].
  cbn [max_payment_num foldr]. fold (max_payment_num keys).
  apply elem_of_cons in Hk as [<-|Hk].
  - unfold max_step. rewrite Hn. lia.
  - pose proof (max_step_le k' (max_payment_num keys)). specialize (IH Hk). lia.
Qed.

(** The generated id is not a key of the payments. *)
Lemma _generate_payment_id_fresh (db : DB) :
  get_payment db (_generate_payment_id db) = None.
Proof.
  unfold get_payment, _generate_payment_id.
  set (keys := (map_to_list (get_payments db)).*1).
  pose proof (max_payment_num_nonneg keys) as Hnonneg.
  destruct (get_payments db !! _) as [p|] eqn:Hp; [exfalso|done].
  assert (("PAY" +:+ Py.format_03d (max_payment_num keys + 1)) ∈ keys) as Hin.
  { apply list_elem_of_fmap. exists ("PAY" +:+ Py.format_03d (max_payment_num keys + 1), p).
    split; [done|]. by apply elem_of_map_to_list. }
  pose proof (max_payment_num_ge keys _ (max_payment_num keys + 1) Hin) as Hle.
  rewrite replace_PAY_format_03d, int_format_03d in Hle by lia.
  specialize (Hle eq_refl). lia.
Qed.

Lemma get_payments_set_balance (db : DB) (k : string) (a : Account) (v : float) :
  get_payments (set_balance db k a v) = get_payments db.
Proof. done. Qed.

Lemma get_account_set_balance (db : DB) (k k' : string) (a : Account) (v : float) :
  get_account (set_balance db k a v) k' =
  if decide (k = k') then Some {| balance := Some v; statements := statements a |}
  else get_account db k'.
Proof.
  unfold get_account, set_balance, get_accounts. cbn [accounts default].
  apply lookup_insert.
Qed.

Lemma get_account_update_payment (db : DB) (pid : string) (p : Payment) (k : string) :
  get_account (update_payment db pid p) k = get_account db k.
Proof. done. Qed.

(** C9. When the source account or the destination account is not in the
    database, or the source balance (0 when the account has none) is less than
    the amount, [transfer_funds] returns [None], raises nothing and leaves the
    whole database, accounts and payments, as it was. *)
Theorem transfer_funds_rejected (today : string) (db : DB)
    (from_account to_account : string) (amount : float) :
  get_account db from_account = None ∨
  get_account db to_account = None ∨
  (∃ from_acc, get_account db from_account = Some from_acc ∧
               PrimFloat.ltb (default 0%float (balance from_acc)) amount = true) →
  transfer_funds today db from_account to_account amount = (db, Return None).
Proof.
  intros H. unfold transfer_funds.
  destruct (get_account db from_account) as [fa|] eqn:Hfa; [|done].
  destruct (get_account db to_account) as [ta|] eqn:Hta; [|done].
  destruct H as [H|[H|(fa' & [= <-] & Hlt)]]; [done..|].
  rewrite Hlt. by destruct (negb _ || negb _).
Qed.

(** The source account of the sample bank holds 1000, less than 5000. *)
Lemma transfer_funds_rejected_witness :
  transfer_funds "2024-05-01" Samples.bank "ACC1" "ACC2" 5000%float
  = (Samples.bank, Return None).
Proof.
  apply transfer_funds_rejected. right; right.
  exists (mkAccount (Some 1000%float) (Some ∅)). split; vm_compute; reflexivity.
Defined.

(** C10, as the code has it. A call with distinct ids that returns a payment
    id found both accounts with a balance; afterwards the source balance is
    the binary64 difference [balance - amount] and the destination balance the
    binary64 sum [balance + amount], every other account is as before, and the
    payments are the earlier ones with one record added, of that amount and
    status "Completed", under an id that was no key before. *)
Theorem transfer_funds_completed (today : string) (db db' : DB)
    (from_account to_account : string) (amount : float) (payment_id : string) :
  from_account ≠ to_account →
  transfer_funds today db from_account to_account amount
    = (db', Return (Some payment_id)) →
  ∃ b b' : float,
    balance_of db from_account = Some b ∧
    balance_of db to_account = Some b' ∧
    balance_of db' from_account = Some (PrimFloat.sub b amount) ∧
    balance_of db' to_account = Some (PrimFloat.add b' amount) ∧
    (∀ k, k ≠ from_account → k ≠ to_account → get_account db' k = get_account db k) ∧
    get_payment db payment_id = None ∧
    get_payments db' =
      <[payment_id := {| from_account := from_account; to_account := to_account;
                         amount := amount; date := today; status := "Completed" |}]>
        (get_payments db).
Proof.
  intros Hne. unfold transfer_funds.
  destruct (get_account db from_account) as [fa|] eqn:Hfa; [|done].
  destruct (get_account db to_account) as [ta|] eqn:Hta; [|done].
  destruct (negb _ || negb _); [done|].
  destruct (PrimFloat.ltb _ amount); [done|].
  destruct (balance fa) as [b|] eqn:Hb; [|done].
  rewrite decide_False by done.
  destruct (balance ta) as [b'|] eqn:Hb'; [|done].
  set (db1 := set_balance db from_account fa (PrimFloat.sub b amount)).
  set (db2 := set_balance db1 to_account ta (PrimFloat.add b' amount)).
  intros [= <- <-]. exists b, b'.
  assert (get_payments db2 = get_payments db) as Hpay by done.
  split; [by unfold balance_of; rewrite Hfa|].
  split; [by unfold balance_of; rewrite Hta|].
  split.
  { unfold balance_of. rewrite get_account_update_payment. unfold db2, db1.
    rewrite !get_account_set_balance, decide_False, decide_True by done. done. }
  split.
  { unfold balance_of. rewrite get_account_update_payment. unfold db2.
    rewrite get_account_set_balance, decide_True by done. done. }
  split.
  { intros k Hkf Hkt. rewrite get_account_update_payment. unfold db2, db1.
    by rewrite !get_account_set_balance, !decide_False by done. }
  split.
  { pose proof (_generate_payment_id_fresh db2) as Hfresh.
    unfold get_payment in *. by rewrite Hpay in Hfresh. }
  unfold update_payment, get_payments at 1. cbn [payments default].
  by rewrite Hpay.
Qed.

(** 100 from ACC1 to ACC2 in the sample bank: recorded as PAY002. *)
Lemma transfer_funds_completed_witness :
  ∃ b b' : float,
    balance_of Samples.bank "ACC1" = Some b ∧
    balance_of Samples.bank "ACC2" = Some b' ∧
    balance_of (transfer_funds "2024-05-01" Samples.bank "ACC1" "ACC2" 100%float).1 "ACC1"
      = Some (PrimFloat.sub b 100%float) ∧
    balance_of (transfer_funds "2024-05-01" Samples.bank "ACC1" "ACC2" 100%float).1 "ACC2"
      = Some (PrimFloat.add b' 100%float) ∧
    (∀ k, k ≠ "ACC1" → k ≠ "ACC2" →
       get_account (transfer_funds "2024-05-01" Samples.bank "ACC1" "ACC2" 100%float).1 k
       = get_account Samples.bank k) ∧
    get_payment Samples.bank "PAY002" = None ∧
    get_payments (transfer_funds "2024-05-01" Samples.bank "ACC1" "ACC2" 100%float).1 =
      <["PAY002" := {| from_account := "ACC1"; to_account := "ACC2";
                       amount := 100%float; date := "2024-05-01";
                       status := "Completed" |}]>
        (get_payments Samples.bank).
Proof.
  apply (transfer_funds_completed "2024-05-01" Samples.bank
           (transfer_funds "2024-05-01" Samples.bank "ACC1" "ACC2" 100%float).1
           "ACC1" "ACC2" 100%float "PAY002").
  - discriminate.
  - vm_compute. reflexivity.
Defined.

(** With a source balance of 1e16 and an amount of 1, the transfer succeeds,
    the stored source balance is the same number as before and the destination
    has gained 1: the source did not decrease by the amount and the sum of the
    two balances grew. *)
Lemma transfer_funds_rounds :
  (transfer_funds "2024-05-01" Samples.large_bank "ACC1" "ACC2" 1%float).2
    = Return (Some "PAY001") ∧
  balance_of Samples.large_bank "ACC1" = Some 1e16%float ∧
  balance_of (transfer_funds "2024-05-01" Samples.large_bank "ACC1" "ACC2" 1%float).1 "ACC1"
    = Some 1e16%float ∧
  balance_of Samples.large_bank "ACC2" = Some 0%float ∧
  balance_of (transfer_funds "2024-05-01" Samples.large_bank "ACC1" "ACC2" 1%float).1 "ACC2"
    = Some 1%float.
Proof. repeat split; vm_compute; reflexivity. Qed.

End DbFacts.

(* ===================================================================== *)
(** ** The websocket handler *)
(* ===================================================================== *)

Section VoiceFacts.
Import Voice.
Context `{ops : LlmServiceOps}.
Local Open Scope list_scope.

Implicit Types (st : Session) (db : Db.DB) (n : nat) (t : Task).

Lemma run_app st (s1 s2 : list Action) : run st (s1 ++ s2) = run (run st s1) s2.
Proof. apply foldl_app. Qed.

Lemma run_cons st (a : Action) (s : list Action) : run st (a :: s) = run (step st a) s.
Proof. done. Qed.

Lemma delivered_after_same st st' :
  sent st' = sent st → delivered_after st st' = [].
Proof. unfold delivered_after. intros ->. apply drop_all. Qed.

Lemma delivered_after_send st st' (ms : list Outbound) :
  sent st' = sent st ++ ms → delivered_after st st' = ms.
Proof. unfold delivered_after. intros ->. apply drop_app_length. Qed.

(** *** What [resume] does, by the point the task is suspended at *)

Lemma resume_finished st n t :
  tasks st !! n = Some t → at_point t = Finished → resume st n = st.
Proof. unfold resume. by intros -> ->. Qed.

Lemma resume_exhausted st n t :
  tasks st !! n = Some t → at_point t = AwaitNext → events t = [] →
  resume st n = set_tasks st (<[n := mkTask (request_obj t) [] Finished]> (tasks st)).
Proof. unfold resume. by intros -> -> ->. Qed.

Lemma resume_event st n t (event : LLMResponse) (rest : list LLMResponse) :
  tasks st !! n = Some t → at_point t = AwaitNext → events t = event :: rest →
  resume st n =
    send_json (set_tasks st (<[n := mkTask (request_obj t) rest AwaitSend]> (tasks st)))
              (OutResponse event).
Proof. unfold resume. by intros -> -> ->. Qed.

Lemma resume_check_break st n t :
  tasks st !! n = Some t → at_point t = AwaitSend →
  rr_response_id (request_obj t) < response_id st →
  resume st n = set_tasks st (<[n := mkTask (request_obj t) (events t) Finished]> (tasks st)).
Proof.
  unfold resume. intros -> -> Hlt. by rewrite (proj2 (Z.ltb_lt _ _) Hlt).
Qed.

Lemma resume_check_continue st n t :
  tasks st !! n = Some t → at_point t = AwaitSend →
  ¬ rr_response_id (request_obj t) < response_id st →
  resume st n = set_tasks st (<[n := mkTask (request_obj t) (events t) AwaitNext]> (tasks st)).
Proof.
  unfold resume. intros -> -> Hlt. by rewrite (proj2 (Z.ltb_nlt _ _) Hlt).
Qed.

Lemma resume_response_id st n : response_id (resume st n) = response_id st.
Proof.
  unfold resume. destruct (tasks st !! n) as [t|]; [|done].
  destruct (at_point t); [destruct (events t)| |]; try done.
  by destruct (_ <? _).
Qed.

Lemma resume_llm_client st n : llm_client (resume st n) = llm_client st.
Proof.
  unfold resume. destruct (tasks st !! n) as [t|]; [|done].
  destruct (at_point t); [destruct (events t)| |]; try done.
  by destruct (_ <? _).
Qed.

(** Resuming one task leaves every other task as it is. *)
Lemma resume_other_task st n m :
  m ≠ n → tasks (resume st m) !! n = tasks st !! n.
Proof.
  intros Hne. unfold resume. destruct (tasks st !! m) as [t|]; [|done].
  destruct (at_point t); [destruct (events t)| |]; try done;
    try destruct (_ <? _); cbn [tasks send_json set_tasks];
    by rewrite list_lookup_insert_ne.
Qed.

(** *** What [handle_message] does to the two variables and the tasks *)

Lemma handle_message_task db st (m : Message) n t :
  tasks st !! n = Some t → tasks (handle_message db st m) !! n = Some t.
Proof.
  intros Ht. destruct m as [from_number| | |kind rid tr|]; cbn [handle_message]; try done.
  - destruct (bool_decide _); [done|]. by destruct (Db.truthy _ _).
  - cbn [llm_client set_response_id]. destruct (llm_client st); [|done].
    cbn [tasks set_tasks set_response_id]. by apply lookup_app_l_Some.
Qed.

Lemma handle_message_response_id db st (m : Message) :
  response_id (handle_message db st m) =
  match m with
  | response _ rid _ => default 0 rid
  | _ => response_id st
  end.
Proof.
  destruct m as [from_number| | |kind rid tr|]; cbn [handle_message]; try done.
  - destruct (bool_decide _); [done|]. by destruct (Db.truthy _ _).
  - cbn [llm_client set_response_id]. by destruct (llm_client st).
Qed.

Lemma step_response_id st (a : Action) :
  response_id (step st a) = default (response_id st) (requested a).
Proof.
  destruct a as [db m|n]; cbn [step requested].
  - rewrite handle_message_response_id. by destruct m.
  - apply resume_response_id.
Qed.

(** *** Keep-alive, transcript updates and requests before the call details *)

(** C7. A ping_pong message with timestamp T makes the handler send exactly
    one message, the ping_pong reply with the same T, whatever tasks are in
    flight; the client, the recorded response id and the tasks are as before. *)
Theorem ping_pong_echo db st (timestamp : option Z) :
  handle_message db st (ping_pong timestamp) =
    {| llm_client := llm_client st; response_id := response_id st;
       tasks := tasks st; sent := sent st ++ [OutPingPong timestamp] |} ∧
  delivered_after st (step st (Receive db (ping_pong timestamp))) = [OutPingPong timestamp].
Proof. split; [done|]. by apply delivered_after_send. Qed.

(** C8, as the code has it. An update_only message changes nothing: no
    message is sent, no task is started, and the state of the connection,
    which keeps no transcript, is the one before. *)
Theorem update_only_changes_nothing db st (transcript : list Utterance) :
  handle_message db st (update_only transcript) = st ∧
  delivered_after st (step st (Receive db (update_only transcript))) = [].
Proof. split; [done|]. by apply delivered_after_same. Qed.

(** C6, as the code has it. A request for a response that arrives while no
    client is initialized sends nothing and starts no task, and the client
    stays uninitialized; the recorded response id, set before the client is
    looked at, becomes the one of the request (0 when it carries none). *)
Theorem request_without_client db st (kind : InteractionType) (rid : option Z)
    (transcript : list Utterance) :
  llm_client st = None →
  handle_message db st (response kind rid transcript) =
    {| llm_client := None; response_id := default 0 rid;
       tasks := tasks st; sent := sent st |}.
Proof.
  intros Hnone. cbn [handle_message llm_client set_response_id]. rewrite Hnone.
  unfold set_response_id. by rewrite Hnone.
Qed.

(** C2, as the code has it. Every request for a response overwrites the
    recorded response id with its own (0 when it carries none), whatever the
    value before, and on an initialized connection starts a task for it;
    no other message and no step of a task changes the recorded id. *)
Theorem response_id_is_latest_request db st :
  (∀ kind rid transcript,
     response_id (handle_message db st (response kind rid transcript)) = default 0 rid ∧
     tasks (handle_message db st (response kind rid transcript)) =
       match llm_client st with
       | Some c =>
           tasks st ++
           [mkTask (mkRequest kind (default 0 rid) transcript)
                   (draft_response c (mkRequest kind (default 0 rid) transcript))
                   AwaitNext]
       | None => tasks st
       end) ∧
  (∀ from_number,
     response_id (handle_message db st (call_details from_number)) = response_id st) ∧
  (∀ timestamp,
     response_id (handle_message db st (ping_pong timestamp)) = response_id st) ∧
  (∀ transcript,
     response_id (handle_message db st (update_only transcript)) = response_id st) ∧
  (∀ interaction_type,
     response_id (handle_message db st (other interaction_type)) = response_id st) ∧
  (∀ n, response_id (resume st n) = response_id st).
Proof.
  split.
  { intros kind rid transcript. split; [by rewrite handle_message_response_id|].
    cbn [handle_message llm_client set_response_id response_id].
    by destruct (llm_client st). }
  repeat split; intros; first [by rewrite handle_message_response_id
                              | apply resume_response_id].
Qed.

(** *** The call details *)

(** C4, at the input the code misses. A call_details message without a
    caller number, absent or empty, sends no opening response and leaves the
    client uninitialized if it was: the connection is as before. *)
Theorem call_details_without_number db st :
  handle_message db st (call_details None) = st ∧
  handle_message db st (call_details (Some "")) = st ∧
  delivered_after st (step st (Receive db (call_details None))) = [].
Proof. split; [done|]. split; [done|]. by apply delivered_after_same. Qed.

(** With a caller number, one opening response is sent and the client is
    set: with the user's name and the formatted number when the user is found,
    with "there" otherwise. *)
Lemma call_details_with_number db st (from_number : string) :
  from_number ≠ "" →
  let formatted_number := format_number from_number in
  let c := match Db.get_user db formatted_number with
           | Some u =>
               if Db.user_nonempty u
               then set_user_info LlmService_new (Db.name u) (Some formatted_number)
               else set_user_info LlmService_new (Some "there") None
           | None => set_user_info LlmService_new (Some "there") None
           end in
  handle_message db st (call_details (Some from_number)) =
    {| llm_client := Some c; response_id := response_id st; tasks := tasks st;
       sent := sent st ++ [OutResponse (draft_begin_message c)] |}.
Proof.
  intros Hne. unfold handle_message.
  change (default "" (Some from_number)) with from_number.
  rewrite bool_decide_eq_false_2 by done.
  destruct (Db.get_user db (format_number from_number)) as [u|]; cbn [Db.truthy]; [|done].
  by destruct (Db.user_nonempty u).
Qed.

(** *** Preemption *)

Lemma step_keeps_task st (a : Action) n t :
  a ≠ Resume n → tasks st !! n = Some t → tasks (step st a) !! n = Some t.
Proof.
  intros Ha Ht. destruct a as [db m|k]; cbn [step].
  - by apply handle_message_task.
  - rewrite resume_other_task; [done|congruence].
Qed.

Lemma step_stays_above st (a : Action) (s : Z) :
  match requested a with Some r => s <? r | None => true end = true →
  s < response_id st → s < response_id (step st a).
Proof.
  rewrite step_response_id. destruct (requested a) as [r|]; cbn [default]; [|done].
  intros Hr%Z.ltb_lt _. done.
Qed.

(** A task whose request is older than the recorded response id sends the
    event it is waiting for, if it is suspended in the generator, and nothing
    after its next check. *)
Lemma sent_by_superseded (schedule : list Action) :
  ∀ st n t,
    tasks st !! n = Some t →
    rr_response_id (request_obj t) < response_id st →
    stays_above (rr_response_id (request_obj t)) schedule = true →
    (length (sent_by n st schedule) ≤
       match at_point t with AwaitNext => 1 | _ => 0 end)%nat.
Proof.
  induction schedule as [|a schedule IH]; intros st n t Ht Hlt Habove.
  { cbn. destruct (at_point t); lia. }
  cbn [stays_above forallb] in Habove. apply andb_prop in Habove as [Ha Habove].
  pose proof (step_stays_above st a _ Ha Hlt) as Hlt'.
  assert (a ≠ Resume n →
          (length (sent_by n (step st a) schedule) ≤
             match at_point t with AwaitNext => 1 | _ => 0 end)%nat) as Hother.
  { intros Hne. apply IH; [by apply step_keeps_task|done..]. }
  cbn [sent_by]. rewrite length_app.
  destruct a as [db m|m]; [by apply Hother|].
  destruct (decide (m = n)) as [->|Hmn]; [|apply Hother; congruence].
  clear Hother. cbn [step] in *.
  pose proof (lookup_lt_Some _ _ _ Ht) as Hn.
  destruct (at_point t) eqn:Hat; [destruct (events t) as [|event rest] eqn:Hev| |].
  - rewrite (resume_exhausted st n t) in * by done.
    rewrite delivered_after_same by done.
    match goal with |- context [sent_by n ?s schedule] =>
      specialize (IH s n (mkTask (request_obj t) [] Finished)
                    (list_lookup_insert_eq _ _ _ Hn) Hlt' Habove) end.
    cbn in *. lia.
  - rewrite (resume_event st n t event rest) in * by done.
    rewrite (delivered_after_send _ _ [OutResponse event]) by done.
    match goal with |- context [sent_by n ?s schedule] =>
      specialize (IH s n (mkTask (request_obj t) rest AwaitSend)
                    (list_lookup_insert_eq _ _ _ Hn) Hlt' Habove) end.
    cbn in *. lia.
  - rewrite (resume_check_break st n t) in * by done.
    rewrite delivered_after_same by done.
    match goal with |- context [sent_by n ?s schedule] =>
      specialize (IH s n (mkTask (request_obj t) (events t) Finished)
                    (list_lookup_insert_eq _ _ _ Hn) Hlt' Habove) end.
    cbn in *. lia.
  - rewrite (resume_finished st n t) in * by done.
    rewrite delivered_after_same by done.
    specialize (IH st n t Ht Hlt' Habove). rewrite Hat in IH. cbn in *. lia.
Qed.

(** C1, as the code has it. The check [request_obj.response_id < response_id]
    comes after each send, not before it. Once the recorded response id is
    above the id of a task's request, and as long as the requests that follow
    keep it above, the task sends at most one more fragment, the one it was
    waiting for in the generator, and none if it was suspended after a send:
    its next check ends it. *)
Theorem superseded_task_sends_at_most_one st n t (schedule : list Action) :
  tasks st !! n = Some t →
  rr_response_id (request_obj t) < response_id st →
  stays_above (rr_response_id (request_obj t)) schedule = true →
  (length (sent_by n st schedule) ≤ 1)%nat ∧
  (at_point t ≠ AwaitNext → sent_by n st schedule = []).
Proof.
  intros Ht Hlt Habove.
  pose proof (sent_by_superseded schedule st n t Ht Hlt Habove) as Hle.
  split.
  - destruct (at_point t); lia.
  - intros Hat. apply nil_length_inv. destruct (at_point t); [done|lia..].
Qed.

(** *** Requests with the same response id *)

Lemma handle_message_request db st (c : LlmService) (kind : InteractionType)
    (rid : option Z) (transcript : list Utterance) :
  llm_client st = Some c →
  handle_message db st (response kind rid transcript) =
    {| llm_client := Some c; response_id := default 0 rid;
       tasks := tasks st ++
                [mkTask (mkRequest kind (default 0 rid) transcript)
                        (draft_response c (mkRequest kind (default 0 rid) transcript))
                        AwaitNext];
       sent := sent st |}.
Proof.
  intros Hc. cbn [handle_message llm_client set_response_id]. rewrite Hc.
  unfold set_tasks, set_response_id. cbn [llm_client response_id tasks sent].
  by rewrite Hc.
Qed.

(** A task whose request carries the recorded response id is not stopped by
    its checks: resumed on its own, it sends every event of its generator, in
    order, and finishes. *)
Lemma run_to_completion (evs : list LLMResponse) :
  ∀ st n (request : ResponseRequiredRequest),
    tasks st !! n = Some (mkTask request evs AwaitNext) →
    ¬ rr_response_id request < response_id st →
    run st (replicate (2 * length evs + 1) (Resume n)) =
      {| llm_client := llm_client st; response_id := response_id st;
         tasks := <[n := mkTask request [] Finished]> (tasks st);
         sent := sent st ++ (OutResponse <$> evs) |}.
Proof.
  induction evs as [|event evs IH]; intros st n request Ht Hge.
  - cbn [length replicate Nat.mul Nat.add run foldl step].
    rewrite (resume_exhausted st n _ Ht) by done.
    unfold set_tasks. cbn [request_obj fmap list_fmap]. by rewrite app_nil_r.
  - pose proof (lookup_lt_Some _ _ _ Ht) as Hn.
    replace (2 * length (event :: evs) + 1)%nat
      with (S (S (2 * length evs + 1))) by (cbn [length]; lia).
    rewrite !replicate_S, !run_cons. cbn [step].
    rewrite (resume_event st n _ event evs Ht) by done. cbn [request_obj].
    set (st1 := send_json _ _).
    assert (tasks st1 !! n = Some (mkTask request evs AwaitSend)) as Ht1
      by by apply list_lookup_insert_eq.
    rewrite (resume_check_continue st1 n _ Ht1) by done.
    cbn [request_obj events].
    set (st2 := set_tasks st1 _).
    assert (tasks st2 !! n = Some (mkTask request evs AwaitNext)) as Ht2.
    { apply list_lookup_insert_eq. unfold st1. cbn [tasks send_json set_tasks].
      by rewrite length_insert. }
    rewrite (IH st2 n request Ht2) by done.
    unfold st2, st1. cbn [llm_client response_id tasks sent send_json set_tasks].
    rewrite !list_insert_insert_eq. cbn [fmap list_fmap].
    by rewrite <- app_assoc.
Qed.

(** C5, as the code has it. Requests are not deduplicated: two requests
    with the same response id on an initialized connection start two tasks
    with the same events, the strict check stops neither, and when both are
    run to their end every fragment of the response, the final one included,
    is sent twice. *)
Theorem duplicate_requests_both_run db st (c : LlmService) (kind : InteractionType)
    (rid : option Z) (transcript : list Utterance) :
  llm_client st = Some c →
  let evs := draft_response c (mkRequest kind (default 0 rid) transcript) in
  let n := length (tasks st) in
  let k := (2 * length evs + 1)%nat in
  delivered_after st
    (run st ([Receive db (response kind rid transcript);
              Receive db (response kind rid transcript)]
             ++ replicate k (Resume n) ++ replicate k (Resume (S n))))
  = (OutResponse <$> evs) ++ (OutResponse <$> evs).
Proof.
  intros Hc evs n k. subst k. rewrite !run_app.
  set (request := mkRequest kind (default 0 rid) transcript).
  assert (run st [Receive db (response kind rid transcript);
                  Receive db (response kind rid transcript)] =
          {| llm_client := Some c; response_id := default 0 rid;
             tasks := tasks st ++ [mkTask request evs AwaitNext; mkTask request evs AwaitNext];
             sent := sent st |}) as ->.
  { cbn [run foldl step]. rewrite (handle_message_request db st c) by done.
    rewrite (handle_message_request db _ c) by done.
    cbn [tasks sent]. by rewrite <- app_assoc. }
  set (st2 := mkSession _ _ _ _).
  assert (tasks st2 !! n = Some (mkTask request evs AwaitNext)) as Hn
    by (apply list_lookup_middle; done).
  rewrite (run_to_completion evs st2 n request Hn) by (cbn; lia).
  set (st3 := mkSession _ _ _ _).
  assert (tasks st3 !! S n = Some (mkTask request evs AwaitNext)) as HSn.
  { unfold st3, st2. cbn [tasks]. rewrite list_lookup_insert_ne by lia.
    change (tasks st ++ [mkTask request evs AwaitNext; mkTask request evs AwaitNext])
      with (tasks st ++ [mkTask request evs AwaitNext] ++ [mkTask request evs AwaitNext]).
    rewrite app_assoc. apply list_lookup_middle. rewrite length_app. cbn. unfold n. lia. }
  rewrite (run_to_completion evs st3 (S n) request HSn) by (cbn; lia).
  apply delivered_after_send. cbn [sent st3 st2]. by rewrite <- app_assoc.
Qed.

End VoiceFacts.

(* ===================================================================== *)
(** ** The handler on the sample call *)
(* ===================================================================== *)

Section VoiceExamples.
Import Voice Samples.
#[local] Existing Instance demo_ops.
Local Open Scope list_scope.

(** The first request (response id 1) has sent its partial fragment and
    waits for the next event when the request with response id 2 is accepted.
    Resumed, its task then sends the final fragment of response 1. *)
Lemma stale_final_fragment_is_sent :
  response_id second_request_accepted = 2 ∧
  tasks second_request_accepted !! 0%nat =
    Some (mkTask (mkRequest response_required 1 []) [final_fragment 1] AwaitNext) ∧
  delivered_after second_request_accepted (step second_request_accepted (Resume 0))
    = [OutResponse (final_fragment 1)] ∧
  content_complete (final_fragment 1) = true ∧
  resp_response_id (final_fragment 1) < response_id second_request_accepted.
Proof. repeat split; vm_compute; reflexivity. Qed.

(** After that one fragment the superseded task is silent. *)
Lemma superseded_task_sends_at_most_one_witness :
  (length (sent_by 0 second_request_accepted [Resume 0; Resume 1; Resume 0; Resume 0]) ≤ 1)%nat ∧
  (AwaitNext ≠ AwaitNext →
   sent_by 0 second_request_accepted [Resume 0; Resume 1; Resume 0; Resume 0] = []).
Proof.
  apply (superseded_task_sends_at_most_one second_request_accepted 0
           (mkTask (mkRequest response_required 1 []) [final_fragment 1] AwaitNext)
           [Resume 0; Resume 1; Resume 0; Resume 0]);
    vm_compute; reflexivity.
Defined.

(** A request with response id 3 after one with response id 5: the recorded
    id goes down from 5 to 3, and the request is served, not dropped. *)
Lemma response_id_goes_down :
  response_id (run greeted [Receive demo_db (response response_required (Some 5) [])]) = 5 ∧
  response_id (run greeted [Receive demo_db (response response_required (Some 5) []);
                            Receive demo_db (response response_required (Some 3) [])]) = 3 ∧
  delivered_after greeted
    (run greeted [Receive demo_db (response response_required (Some 5) []);
                  Receive demo_db (response response_required (Some 3) []);
                  Resume 1; Resume 1; Resume 1])
    = [OutResponse (partial_fragment 3); OutResponse (final_fragment 3)].
Proof. repeat split; vm_compute; reflexivity. Qed.

(** The same request twice: two final fragments of response 1 are sent. *)
Lemma duplicate_request_two_finals :
  finals_of 1
    (sent (run greeted
             ([Receive demo_db (response response_required (Some 1) []);
               Receive demo_db (response response_required (Some 1) [])]
              ++ replicate 5 (Resume 0) ++ replicate 5 (Resume 1))))
  = [OutResponse (final_fragment 1); OutResponse (final_fragment 1)].
Proof. vm_compute. reflexivity. Qed.

Lemma duplicate_requests_both_run_witness :
  delivered_after greeted
    (run greeted
       ([Receive demo_db (response response_required (Some 1) []);
         Receive demo_db (response response_required (Some 1) [])]
        ++ replicate 5 (Resume 0) ++ replicate 5 (Resume 1)))
  = (OutResponse <$> [partial_fragment 1; final_fragment 1])
    ++ (OutResponse <$> [partial_fragment 1; final_fragment 1]).
Proof.
  apply (duplicate_requests_both_run demo_db greeted
           (Some "Ada", Some "+1-415-555-0000") response_required (Some 1) []).
  vm_compute. reflexivity.
Defined.

(** On a fresh connection a request with response id 4 only records the 4. *)
Lemma request_without_client_witness :
  handle_message demo_db init (response response_required (Some 4) []) =
    {| llm_client := None; response_id := default 0 (Some 4);
       tasks := tasks init; sent := sent init |}.
Proof. apply request_without_client. reflexivity. Defined.

(** A request on a connection that has not seen the call details: the
    recorded response id changes from 0 to 7. *)
Lemma request_without_client_records_id :
  llm_client init = None ∧
  response_id init = 0 ∧
  response_id (handle_message demo_db init (response response_required (Some 7) [])) = 7 ∧
  handle_message demo_db init (response response_required (Some 7) []) ≠ init.
Proof.
  repeat split; try (vm_compute; reflexivity). intros H.
  apply (f_equal response_id) in H. vm_compute in H. discriminate H.
Qed.

(** An update with one turn: the state after it is the state before, so
    whatever is read from the state as its transcript has not grown by the
    turn. *)
Lemma update_only_appends_nothing :
  handle_message demo_db greeted
    (update_only [mkUtterance user "What is my balance?"]) = greeted ∧
  ∀ transcript_of : Session → list Utterance,
    transcript_of (handle_message demo_db greeted
                     (update_only [mkUtterance user "What is my balance?"]))
    ≠ transcript_of greeted ++ [mkUtterance user "What is my balance?"].
Proof.
  split; [reflexivity|]. intros transcript_of H.
  change (handle_message demo_db greeted (update_only [mkUtterance user "What is my balance?"]))
    with greeted in H.
  apply (f_equal length) in H. rewrite length_app in H. cbn [length] in H. lia.
Qed.

(** The call details of a web call carry no caller number: nothing is sent
    and the following request finds no client. *)
Example call_without_number_is_dead :
  sent (run init [Receive demo_db (call_details None);
                  Receive demo_db (response response_required (Some 1) []);
                  Resume 0; Resume 0]) = [OutConfig RETELL_CONFIG].
Proof. vm_compute. reflexivity. Qed.

(** A caller the database does not know is greeted as "there". *)
Example unknown_caller_is_greeted :
  delivered_after init (run init [Receive demo_db (call_details (Some "+19995550000"))])
  = [OutResponse (mkResponse 0 "Hello there" true (Some false) None)].
Proof. vm_compute. reflexivity. Qed.

End VoiceExamples.

(* ===================================================================== *)
(** ** The orchestrator: history and reachability *)
(* ===================================================================== *)

Section OrchestratorFacts.
Import Agents.
Local Open Scope list_scope.

Lemma invoke_messages (svc svc' : AgentService) (f : Function) :
  invoke svc f = Some svc' → messages svc' = messages svc.
Proof.
  unfold invoke, call. case_decide; [|done]. intros [= <-].
  by destruct (handoff_target f).
Qed.

Lemma apply_op_messages (svc svc' : AgentService) (op : Op) :
  apply_op svc op = Some svc' →
  messages svc' = messages svc ++ match op with OpRun m => m | _ => [] end.
Proof.
  destruct op as [m|f|]; cbn [apply_op].
  - by intros [= <-].
  - intros ->%invoke_messages. by rewrite app_nil_r.
  - intros [= <-]. cbn. by rewrite app_nil_r.
Qed.

(** X1. Hand-offs and [reset_agent] never touch the conversation history, and
    every run appends its messages at the end: after any history of runs,
    invocations and agent resets, [self.messages] is what it was followed by
    the messages of the runs, in order. *)
Theorem history_is_appended (ops : list Op) :
  ∀ svc svc', apply_ops svc ops = Some svc' →
    messages svc' = messages svc ++ run_inputs ops.
Proof.
  induction ops as [|op ops IH]; intros svc svc'; cbn [apply_ops].
  - intros [= <-]. unfold run_inputs. cbn. by rewrite app_nil_r.
  - destruct (apply_op svc op) as [svc1|] eqn:Hop; [|done].
    intros Hrest. rewrite (IH _ _ Hrest), (apply_op_messages _ _ _ Hop).
    rewrite <- app_assoc. f_equal. unfold run_inputs. by destruct op.
Qed.

(** A run, a hand-off to the accounts agent, a second run, then a reset of
    the agent. *)
Lemma history_is_appended_witness :
  messages (mkAgentService [("user", "hi"); ("user", "my balance")] TRIAGE) =
    messages init ++
    run_inputs [OpRun [("user", "hi")]; OpInvoke transfer_to_accounts;
                OpRun [("user", "my balance")]; OpResetAgent].
Proof.
  apply (history_is_appended
           [OpRun [("user", "hi")]; OpInvoke transfer_to_accounts;
            OpRun [("user", "my balance")]; OpResetAgent] init).
  reflexivity.
Defined.

(** The shortest way back to the triage agent. *)
Definition way_back (a : Agent) : list Function :=
  match a with
  | TRIAGE => []
  | ACCOUNTS => [transfer_to_payments; transfer_back_to_triage]
  | PAYMENTS | APPLICATIONS => [transfer_back_to_triage]
  end.

(** The transfer by which triage reaches an agent. *)
Definition way_there (a : Agent) : list Function :=
  match a with
  | TRIAGE => []
  | ACCOUNTS => [transfer_to_accounts]
  | PAYMENTS => [transfer_to_payments]
  | APPLICATIONS => [transfer_to_applications]
  end.

(** X2. No agent is a dead end: from any agent the triage agent is reached again
    by at most two hand-offs the agents are allowed to make, from the triage
    agent every agent is reached by at most one, and the accounts agent has no
    way back in a single hand-off. *)
Theorem triage_is_reachable (msgs : list (string * string)) (a : Agent) :
  invoke_all (mkAgentService msgs a) (way_back a) = Some (mkAgentService msgs TRIAGE) ∧
  (length (way_back a) ≤ 2)%nat ∧
  invoke_all (mkAgentService msgs TRIAGE) (way_there a) = Some (mkAgentService msgs a) ∧
  (length (way_there a) ≤ 1)%nat ∧
  (∀ f, current_agent <$> invoke (mkAgentService msgs ACCOUNTS) f ≠ Some TRIAGE).
Proof.
  split; [by destruct a|]. split; [destruct a; cbn; lia|].
  split; [by destruct a|]. split; [destruct a; cbn; lia|].
  intros f. by destruct f.
Qed.

End OrchestratorFacts.

(* ===================================================================== *)
(** ** The database: transfers, payment ids, payments and calls *)
(* ===================================================================== *)

Section DatabaseFacts.
Import Db.
Local Open Scope list_scope.

(** *** Which transfers go through *)

(** X3. [transfer_funds] returns a payment id exactly when both accounts are
    stored, the source has a balance that is not less than the amount, and the
    destination has a balance too (it is the source itself when the ids are
    the same). Nothing else is checked: the amount may be zero or negative. *)
Theorem transfer_funds_goes_through (today : string) (db : DB)
    (from_account to_account : string) (amount : float) :
  (∃ db' payment_id,
     transfer_funds today db from_account to_account amount
       = (db', Return (Some payment_id)))
  ↔
  (∃ from_acc to_acc b,
     get_account db from_account = Some from_acc ∧
     get_account db to_account = Some to_acc ∧
     balance from_acc = Some b ∧
     PrimFloat.ltb b amount = false ∧
     (from_account = to_account ∨ is_Some (balance to_acc))).
Proof.
  unfold transfer_funds. split.
  - intros (db' & pid & H).
    destruct (get_account db from_account) as [fa|] eqn:Hfa; [|done].
    destruct (get_account db to_account) as [ta|] eqn:Hta; [|done].
    destruct (negb _ || negb _); [done|].
    destruct (balance fa) as [b|] eqn:Hb;
      [|destruct (PrimFloat.ltb _ amount); discriminate H].
    change (default 0%float (Some b)) with b in H.
    destruct (PrimFloat.ltb b amount) eqn:Hlt; [done|].
    exists fa, ta, b. repeat split; try done.
    destruct (decide (from_account = to_account)) as [|Hne]; [by left|right].
    by destruct (balance ta).
  - intros (fa & ta & b & Hfa & Hta & Hb & Hlt & Hto).
    assert (account_nonempty fa = true) as Hfa_ne
      by (unfold account_nonempty; by rewrite Hb).
    destruct (decide (from_account = to_account)) as [Heq|Hne].
    + subst to_account. assert (ta = fa) as -> by congruence.
      rewrite Hfa, Hfa_ne, Hb. change (default 0%float (Some b)) with b.
      rewrite Hlt. cbn. eauto.
    + destruct Hto as [|[b' Hb']]; [done|].
      assert (account_nonempty ta = true) as Hta_ne
        by (unfold account_nonempty; by rewrite Hb').
      rewrite Hfa, Hta, Hfa_ne, Hta_ne, Hb. change (default 0%float (Some b)) with b.
      rewrite Hlt. cbn [negb orb]. rewrite Hb'. eauto.
Qed.

(** *** What a transfer leaves alone *)

Lemma get_payment_update_payment (db : DB) (pid : string) (p : Payment) (k : string) :
  get_payment (update_payment db pid p) k =
  if decide (pid = k) then Some p else get_payment db k.
Proof. unfold get_payment, update_payment, get_payments. apply lookup_insert. Qed.

Lemma get_account_set_balance_keeps (db : DB) (k k' : string) (a a0 : Account) (v : float) :
  get_account db k = Some a →
  get_account db k' = Some a0 →
  ∃ a', get_account (set_balance db k a v) k' = Some a' ∧ statements a' = statements a0.
Proof.
  intros Hk Hk'. rewrite get_account_set_balance. case_decide as Heq.
  - subst k'. assert (a0 = a) as -> by congruence. eauto.
  - eauto.
Qed.

(** X4. Whatever its outcome, [transfer_funds] leaves the users, every account
    other than the two named, the statements of every account and every
    earlier payment record as they were, and removes no account. *)
Theorem transfer_funds_frame (today : string) (db : DB)
    (from_account to_account : string) (amount : float) :
  users (transfer_funds today db from_account to_account amount).1 = users db ∧
  (∀ k, k ≠ from_account → k ≠ to_account →
     get_account (transfer_funds today db from_account to_account amount).1 k
     = get_account db k) ∧
  (∀ k a, get_account db k = Some a →
     ∃ a', get_account (transfer_funds today db from_account to_account amount).1 k
           = Some a' ∧ statements a' = statements a) ∧
  (∀ k p, get_payment db k = Some p →
     get_payment (transfer_funds today db from_account to_account amount).1 k = Some p).
Proof.
  unfold transfer_funds.
  destruct (get_account db from_account) as [fa|] eqn:Hfa; [|by eauto 10].
  destruct (get_account db to_account) as [ta|] eqn:Hta; [|by eauto 10].
  destruct (negb _ || negb _); [by eauto 10|].
  destruct (PrimFloat.ltb _ amount); [by eauto 10|].
  destruct (balance fa) as [b|] eqn:Hb; [|by eauto 10].
  set (debited := PrimFloat.sub b amount).
  set (db1 := set_balance db from_account fa debited).
  set (ta' := if decide (from_account = to_account)
              then {| balance := Some debited; statements := statements fa |} else ta).
  assert (get_account db1 to_account = Some ta') as Hta'.
  { unfold db1, ta'. rewrite get_account_set_balance. by case_decide. }
  assert (∀ k a, get_account db k = Some a →
            ∃ a', get_account db1 k = Some a' ∧ statements a' = statements a) as Hkeep1.
  { intros k a Hk. by apply get_account_set_balance_keeps. }
  destruct (balance ta') as [b'|] eqn:Hb'; cbn [fst].
  - set (db2 := set_balance db1 to_account ta' (PrimFloat.add b' amount)).
    split; [done|]. split; [|split].
    + intros k Hkf Hkt. rewrite get_account_update_payment. unfold db2, db1.
      by rewrite !get_account_set_balance, !decide_False by done.
    + intros k a Hk. rewrite get_account_update_payment.
      destruct (Hkeep1 k a Hk) as (a1 & Hk1 & Hst1).
      destruct (get_account_set_balance_keeps db1 to_account k ta' a1
                  (PrimFloat.add b' amount) Hta' Hk1) as (a2 & Hk2 & Hst2).
      exists a2. split; [done|congruence].
    + intros k p Hk.
      pose proof (_generate_payment_id_fresh db2) as Hfresh.
      rewrite get_payment_update_payment. case_decide as Heq; [|done].
      rewrite Heq in Hfresh. change (get_payment db2 k) with (get_payment db k) in Hfresh.
      congruence.
  - split; [done|]. split; [|split; [done|done]].
    intros k Hkf Hkt. unfold db1. by rewrite get_account_set_balance, decide_False.
Qed.

(** *** Uncaught errors *)

(** X5. When [transfer_funds] ends in a [KeyError], the key is "balance" and no
    payment has been recorded; either nothing was changed, or the ids differ,
    the destination has no balance and the source has already been debited:
    the transfer is not atomic. *)
Theorem transfer_funds_key_error (today : string) (db db' : DB)
    (from_account to_account : string) (amount : float) (key : string) :
  transfer_funds today db from_account to_account amount = (db', KeyError key) →
  key = "balance" ∧
  payments db' = payments db ∧
  (db' = db ∨
   from_account ≠ to_account ∧ balance_of db to_account = None ∧
   ∃ b, balance_of db from_account = Some b ∧
        balance_of db' from_account = Some (PrimFloat.sub b amount)).
Proof.
  unfold transfer_funds.
  destruct (get_account db from_account) as [fa|] eqn:Hfa; [|done].
  destruct (get_account db to_account) as [ta|] eqn:Hta; [|done].
  destruct (negb _ || negb _); [done|].
  destruct (PrimFloat.ltb _ amount); [done|].
  destruct (balance fa) as [b|] eqn:Hb; [|intros [= <- <-]; eauto].
  destruct (decide (from_account = to_account)) as [Heq|Hne]; [done|].
  destruct (balance ta) as [b'|] eqn:Hb'; [done|].
  intros [= <- <-]. split; [done|]. split; [done|]. right.
  split; [done|]. split; [by unfold balance_of; rewrite Hta|].
  exists b. split; [by unfold balance_of; rewrite Hfa|].
  unfold balance_of. by rewrite get_account_set_balance, decide_True.
Qed.

(** An account that holds statements and no balance. *)
Definition bank_without_balance : DB :=
  {| users := None;
     accounts := Some (<["ACC1" := mkAccount (Some 1000%float) (Some ∅)]>
                      (<["ACC3" := mkAccount None (Some ∅)]> ∅));
     payments := None |}.

(** 100 from ACC1 to ACC3, which has no balance: ACC1 is left with 900. *)
Lemma transfer_funds_key_error_witness :
  "balance" = "balance" ∧
  payments (transfer_funds "2024-05-01" bank_without_balance "ACC1" "ACC3" 100%float).1
    = payments bank_without_balance ∧
  ((transfer_funds "2024-05-01" bank_without_balance "ACC1" "ACC3" 100%float).1
     = bank_without_balance ∨
   "ACC1" ≠ "ACC3" ∧ balance_of bank_without_balance "ACC3" = None ∧
   ∃ b, balance_of bank_without_balance "ACC1" = Some b ∧
        balance_of (transfer_funds "2024-05-01" bank_without_balance "ACC1" "ACC3"
                      100%float).1 "ACC1" = Some (PrimFloat.sub b 100%float)).
Proof.
  apply (transfer_funds_key_error "2024-05-01" bank_without_balance
           (transfer_funds "2024-05-01" bank_without_balance "ACC1" "ACC3" 100%float).1
           "ACC1" "ACC3" 100%float "balance").
  vm_compute. reflexivity.
Defined.

(** *** A transfer from an account to itself *)

(** X6. A transfer whose source and destination are the same account is not
    rejected: when the balance is not less than the amount it is recorded as a
    completed payment under a new id, and the balance is the one obtained by
    the debit followed by the credit, [(balance - amount) + amount]. *)
Theorem transfer_funds_to_itself (today : string) (db : DB) (account_id : string)
    (amount : float) (acc : Account) (b : float) :
  get_account db account_id = Some acc →
  balance acc = Some b →
  PrimFloat.ltb b amount = false →
  ∃ db' payment_id,
    transfer_funds today db account_id account_id amount
      = (db', Return (Some payment_id)) ∧
    balance_of db' account_id = Some (PrimFloat.add (PrimFloat.sub b amount) amount) ∧
    get_payment db payment_id = None ∧
    get_payment db' payment_id =
      Some {| from_account := account_id; to_account := account_id;
              amount := amount; date := today; status := "Completed" |}.
Proof.
  intros Hacc Hb Hlt. unfold transfer_funds. rewrite Hacc.
  assert (account_nonempty acc = true) as -> by (unfold account_nonempty; by rewrite Hb).
  rewrite Hb. change (default 0%float (Some b)) with b. rewrite Hlt.
  rewrite decide_True by done. cbn [negb orb balance].
  set (db1 := set_balance db account_id acc (PrimFloat.sub b amount)).
  set (db2 := set_balance db1 account_id _ _).
  eexists _, _. split; [done|]. split; [|split].
  - unfold balance_of. rewrite get_account_update_payment. unfold db2.
    by rewrite get_account_set_balance, decide_True.
  - apply (_generate_payment_id_fresh db2).
  - by rewrite get_payment_update_payment, decide_True.
Qed.

(** 100 from ACC2 of the sample bank to ACC2. *)
Lemma transfer_funds_to_itself_witness :
  ∃ db' payment_id,
    transfer_funds "2024-05-01" Samples.bank "ACC2" "ACC2" 100%float
      = (db', Return (Some payment_id)) ∧
    balance_of db' "ACC2"
      = Some (PrimFloat.add (PrimFloat.sub 250%float 100%float) 100%float) ∧
    get_payment Samples.bank payment_id = None ∧
    get_payment db' payment_id =
      Some {| from_account := "ACC2"; to_account := "ACC2";
              amount := 100%float; date := "2024-05-01"; status := "Completed" |}.
Proof.
  apply (transfer_funds_to_itself "2024-05-01" Samples.bank "ACC2" 100%float
           (mkAccount (Some 250%float) (Some ∅)) 250%float);
    vm_compute; reflexivity.
Defined.

(** *** Payment ids *)

Lemma max_payment_num_attained (keys : list string) :
  max_payment_num keys = 0 ∨
  ∃ k, k ∈ keys ∧ Py.int (Py.replace_PAY k) = Some (max_payment_num keys).
Proof.
  induction keys as [|k keys IH]; [by left|].
  cbn [max_payment_num foldr]. fold (max_payment_num keys). unfold max_step.
  destruct (Py.int (Py.replace_PAY k)) as [n|] eqn:Hn.
  - destruct (Z.max_spec (max_payment_num keys) n) as [[_ ->]|[_ ->]].
    + right. exists k. split; [apply elem_of_cons; by left|done].
    + destruct IH as [IH|(k' & Hk' & Hn')]; [by left|].
      right. exists k'. split; [apply elem_of_cons; by right|done].
  - destruct IH as [IH|(k' & Hk' & Hn')]; [by left|].
    right. exists k'. split; [apply elem_of_cons; by right|done].
Qed.

Lemma elem_of_payment_keys (m : gmap string Payment) (k : string) :
  k ∈ (map_to_list m).*1 ↔ is_Some (m !! k).
Proof.
  rewrite list_elem_of_fmap. split.
  - intros ([k' p] & -> & Hin). apply elem_of_map_to_list in Hin. by exists p.
  - intros [p Hp]. exists (k, p). split; [done|]. by apply elem_of_map_to_list.
Qed.

Lemma _generate_payment_id_number (db : DB) :
  Py.int (Py.replace_PAY (_generate_payment_id db)) =
  Some (max_payment_num (map_to_list (get_payments db)).*1 + 1).
Proof.
  unfold _generate_payment_id.
  pose proof (max_payment_num_nonneg (map_to_list (get_payments db)).*1).
  by rewrite replace_PAY_format_03d, int_format_03d by lia.
Qed.

(** X7. The number in a generated id is positive, and once a payment has been
    stored under the generated id the next generated id carries the next
    number: two ids generated one after the other are different, and the second
    is again no key of the payments. *)
Theorem payment_ids_count_up (db : DB) (payment_data : Payment) :
  ∃ n : Z,
    1 ≤ n ∧
    Py.int (Py.replace_PAY (_generate_payment_id db)) = Some n ∧
    Py.int (Py.replace_PAY
              (_generate_payment_id
                 (update_payment db (_generate_payment_id db) payment_data)))
      = Some (n + 1) ∧
    _generate_payment_id (update_payment db (_generate_payment_id db) payment_data)
      ≠ _generate_payment_id db ∧
    get_payment (update_payment db (_generate_payment_id db) payment_data)
      (_generate_payment_id (update_payment db (_generate_payment_id db) payment_data))
      = None.
Proof.
  set (id1 := _generate_payment_id db).
  set (db1 := update_payment db id1 payment_data).
  set (keys := (map_to_list (get_payments db)).*1).
  set (keys1 := (map_to_list (get_payments db1)).*1).
  pose proof (max_payment_num_nonneg keys) as Hnonneg.
  pose proof (_generate_payment_id_number db) as Hid1. fold id1 keys in Hid1.
  assert (max_payment_num keys1 = max_payment_num keys + 1) as Hmax.
  { assert (id1 ∈ keys1) as Hin.
    { apply elem_of_payment_keys. unfold db1.
      change (get_payments (update_payment db id1 payment_data) !! id1)
        with (get_payment (update_payment db id1 payment_data) id1).
      rewrite get_payment_update_payment, decide_True by done. eauto. }
    pose proof (max_payment_num_ge keys1 id1 _ Hin Hid1) as Hge.
    destruct (max_payment_num_attained keys1) as [H0|(k & Hk & Hn)]; [lia|].
    apply elem_of_payment_keys in Hk.
    change (get_payments db1 !! k) with (get_payment (update_payment db id1 payment_data) k) in Hk.
    rewrite get_payment_update_payment in Hk. case_decide as Heq.
    - subst k. rewrite Hid1 in Hn. by injection Hn.
    - apply elem_of_payment_keys in Hk.
      pose proof (max_payment_num_ge keys k _ Hk Hn). lia. }
  pose proof (_generate_payment_id_number db1) as Hid2. fold keys1 in Hid2.
  rewrite Hmax in Hid2.
  exists (max_payment_num keys + 1). split; [lia|]. split; [done|]. split; [done|].
  split; [|apply _generate_payment_id_fresh].
  intros Heq. fold db1 in Heq. rewrite Heq, Hid1 in Hid2. injection Hid2. lia.
Qed.

(** *** Storing and deleting payments *)

(** X8. A payment stored with [update_payment] is the one [get_payment] returns
    for its id, also when the database had no payments table; the other
    payments, the accounts and the users are not affected. The same holds of
    [update_account] and [update_user] for their tables. *)
Theorem update_then_get (db : DB) (k k' : string) (p : Payment) (a : Account) (u : User) :
  get_payment (update_payment db k p) k = Some p ∧
  (k' ≠ k → get_payment (update_payment db k p) k' = get_payment db k') ∧
  accounts (update_payment db k p) = accounts db ∧
  users (update_payment db k p) = users db ∧
  get_account (update_account db k a) k = Some a ∧
  (k' ≠ k → get_account (update_account db k a) k' = get_account db k') ∧
  payments (update_account db k a) = payments db ∧
  get_user (update_user db k u) k = Some u ∧
  (k' ≠ k → get_user (update_user db k u) k' = get_user db k') ∧
  payments (update_user db k u) = payments db.
Proof.
  unfold get_payment, get_account, get_user, update_payment, update_account,
    update_user, get_payments, get_accounts, get_users.
  cbn [payments accounts users].
  repeat split; intros;
    first [apply lookup_insert_eq | by apply lookup_insert_ne].
Qed.

(** X9. [delete_payment] answers whether the id was stored; afterwards the id is
    not stored and every other payment is as before; deleting an id that is
    not stored changes nothing, so a second deletion answers [False]. *)
Theorem delete_payment_removes (db : DB) (k : string) :
  (delete_payment db k).2 = bool_decide (is_Some (get_payment db k)) ∧
  get_payment (delete_payment db k).1 k = None ∧
  (∀ k', k' ≠ k → get_payment (delete_payment db k).1 k' = get_payment db k') ∧
  (get_payment db k = None → (delete_payment db k).1 = db) ∧
  (delete_payment (delete_payment db k).1 k).2 = false ∧
  accounts (delete_payment db k).1 = accounts db ∧
  users (delete_payment db k).1 = users db.
Proof.
  assert (get_payment (delete_payment db k).1 k = None) as Hgone.
  { unfold delete_payment, get_payment.
    destruct (get_payments db !! k) eqn:Hk; [|done].
    unfold get_payments. cbn [fst payments default]. apply lookup_delete_eq. }
  split.
  { unfold delete_payment, get_payment. destruct (get_payments db !! k); cbn [snd].
    - by rewrite bool_decide_eq_true_2.
    - rewrite bool_decide_eq_false_2; [done|]. by intros [? ?]. }
  split; [done|]. split.
  { intros k' Hne. unfold delete_payment, get_payment.
    destruct (get_payments db !! k) eqn:Hk; [|done].
    unfold get_payments at 1. cbn [fst payments default]. by apply lookup_delete_ne. }
  split.
  { unfold delete_payment, get_payment. by intros ->. }
  split.
  { unfold get_payment in Hgone. unfold delete_payment at 1. by rewrite Hgone. }
  unfold delete_payment. by destruct (get_payments db !! k).
Qed.

(** *** The calls *)

(** X10. [update_call] merges into a stored call: a field given in [call_data]
    takes the new value, every other field of the stored call is kept; for an
    id that is not stored the call is [call_data] itself. Other calls are not
    affected, and updating twice with the same data is updating once. *)
Theorem update_call_merges {V : Type} (calls_db : gmap string (gmap string V))
    (call_id : string) (call_data : gmap string V) :
  (∃ call, get_call (update_call calls_db call_id call_data) call_id = Some call ∧
     ∀ field, call !! field =
       match call_data !! field with
       | Some v => Some v
       | None => get_call calls_db call_id ≫= (.!! field)
       end) ∧
  (∀ call_id', call_id' ≠ call_id →
     get_call (update_call calls_db call_id call_data) call_id'
     = get_call calls_db call_id') ∧
  update_call (update_call calls_db call_id call_data) call_id call_data
    = update_call calls_db call_id call_data.
Proof.
  unfold get_call, update_call.
  destruct (calls_db !! call_id) as [call|] eqn:Hcall.
  - split; [|split].
    + exists (call_data ∪ call). split; [apply lookup_insert_eq|].
      intros field. cbn [mbind option_bind].
      destruct (call_data !! field) as [v|] eqn:Hf.
      * by apply lookup_union_Some_l.
      * by rewrite lookup_union_r.
    + intros call_id' Hne. by apply lookup_insert_ne.
    + rewrite lookup_insert_eq, insert_insert_eq. f_equal.
      by rewrite (assoc_L (∪)), (idemp_L (∪)).
  - split; [|split].
    + exists call_data. split; [apply lookup_insert_eq|].
      intros field. cbn [mbind option_bind]. by destruct (call_data !! field).
    + intros call_id' Hne. by apply lookup_insert_ne.
    + rewrite lookup_insert_eq, insert_insert_eq. f_equal. by rewrite (idemp_L (∪)).
Qed.

(** X11. [delete_call] answers whether the call was stored and removes it and
    nothing else; a call stored by [update_call] and then deleted leaves the
    other calls as they were before both. *)
Theorem delete_call_removes {V : Type} (calls_db : gmap string (gmap string V))
    (call_id : string) (call_data : gmap string V) :
  (delete_call calls_db call_id).2 = bool_decide (is_Some (get_call calls_db call_id)) ∧
  get_call (delete_call calls_db call_id).1 call_id = None ∧
  (∀ call_id', call_id' ≠ call_id →
     get_call (delete_call calls_db call_id).1 call_id' = get_call calls_db call_id') ∧
  delete_call (update_call calls_db call_id call_data) call_id
    = (delete call_id calls_db, true).
Proof.
  unfold get_call, delete_call, update_call. split; [|split; [|split]].
  - destruct (calls_db !! call_id); cbn [snd].
    + by rewrite bool_decide_eq_true_2.
    + rewrite bool_decide_eq_false_2; [done|]. by intros [? ?].
  - destruct (calls_db !! call_id) eqn:H; cbn [fst]; [apply lookup_delete_eq|done].
  - intros call_id' Hne. destruct (calls_db !! call_id); cbn [fst]; [|done].
    by apply lookup_delete_ne.
  - destruct (calls_db !! call_id);
      by rewrite lookup_insert_eq, delete_insert_eq.
Qed.

End DatabaseFacts.

(* ===================================================================== *)
(** ** The REST endpoints *)
(* ===================================================================== *)

Section ApiFacts.
Import Db.
Local Open Scope list_scope.

(** Once the checks of the endpoint have passed, [Db.transfer_funds] does
    not answer [None], and a payment id it returns starts with "PAY". *)
Lemma transfer_funds_after_checks (today : string) (db db' : DB)
    (from_account to_account : string) (amount : float) (r : option string) :
  truthy account_nonempty (get_account db from_account) = true →
  truthy account_nonempty (get_account db to_account) = true →
  PrimFloat.ltb (default 0%float (get_account db from_account ≫= balance)) amount = false →
  transfer_funds today db from_account to_account amount = (db', Return r) →
  ∃ rest, r = Some ("PAY" +:+ rest) ∧ get_payment db ("PAY" +:+ rest) = None ∧
    get_payment db' ("PAY" +:+ rest) =
      Some {| from_account := from_account; to_account := to_account;
              amount := amount; date := today; status := "Completed" |}.
Proof.
  unfold transfer_funds.
  destruct (get_account db from_account) as [fa|]; [|done].
  destruct (get_account db to_account) as [ta|]; [|done].
  cbn [truthy mbind option_bind]. intros -> -> ->. cbn [negb orb].
  destruct (balance fa) as [b|]; [|done].
  set (to_acc := if decide _ then _ else _).
  destruct (balance to_acc) as [b'|]; [|done].
  set (db2 := set_balance (set_balance _ _ _ _) _ _ _).
  intros [= <- <-].
  exists (Py.format_03d (max_payment_num (map_to_list (get_payments db2)).*1 + 1)).
  split; [done|]. split; [apply (_generate_payment_id_fresh db2)|].
  apply (eq_trans (get_payment_update_payment db2 (_generate_payment_id db2) _ _)).
  by rewrite decide_True.
Qed.

(** X12. POST /payments/transfer answers an error with status 404, 400 or 500. A
    404 or 400 leaves the database as it was. A 500 is never the "Transfer
    failed" of the source: it is the answer to a [KeyError] of
    [Db.transfer_funds], whose changes to the database stay. *)
Theorem transfer_endpoint_errors (today : string) (db db' : DB)
    (request : Api.PaymentRequest) (status_code : Z) (detail : string) :
  Api.transfer_funds today db request = (db', Api.HTTPException status_code detail) →
  (status_code = 404 ∨ status_code = 400 ∨ status_code = 500) ∧
  (status_code ≠ 500 → db' = db) ∧
  (status_code = 500 →
     detail = "Failed to process transfer" ∧
     ∃ key, transfer_funds today db (Api.req_from_account request)
              (Api.req_to_account request) (Api.req_amount request)
            = (db', KeyError key)).
Proof.
  unfold Api.transfer_funds.
  destruct (truthy account_nonempty (get_account db (Api.req_from_account request)))
    eqn:Hfrom; cbn [negb]; [|intros [= <- <- <-]; split; [auto|by split]].
  destruct (truthy account_nonempty (get_account db (Api.req_to_account request)))
    eqn:Hto; cbn [negb]; [|intros [= <- <- <-]; split; [auto|by split]].
  destruct (PrimFloat.leb _ _); [intros [= <- <- <-]; split; [auto|by split]|].
  destruct (PrimFloat.ltb _ _) eqn:Hlt; [intros [= <- <- <-]; split; [auto|by split]|].
  destruct (transfer_funds today db _ _ _) as [db1 [r|key]] eqn:Htr.
  - destruct (transfer_funds_after_checks _ _ _ _ _ _ _ Hfrom Hto Hlt Htr)
      as (rest & -> & _).
    done.
  - intros [= <- <- <-]. split; [auto|]. split; [done|]. eauto.
Qed.

(** A transfer of 0 between the accounts of the sample bank is refused with
    status 400. *)
Lemma transfer_endpoint_errors_witness :
  (400 = 404 ∨ 400 = 400 ∨ 400 = 500) ∧
  (400 ≠ 500 → Samples.bank = Samples.bank) ∧
  (400 = 500 →
     "Amount must be positive" = "Failed to process transfer" ∧
     ∃ key, transfer_funds "2024-05-01" Samples.bank "ACC1" "ACC2" 0%float
            = (Samples.bank, KeyError key)).
Proof.
  apply (transfer_endpoint_errors "2024-05-01" Samples.bank Samples.bank
           (Api.mkPaymentRequest "ACC1" "ACC2" 0%float) 400 "Amount must be positive").
  vm_compute. reflexivity.
Defined.

(** X13. When POST /payments/transfer answers with success, the amount is not
    less than or equal to zero, the answer repeats the request, and its payment
    id is the one [Db.transfer_funds] returned for this transfer: no key of
    the payments before, the key of the completed payment after. *)
Theorem transfer_endpoint_success (today : string) (db db' : DB)
    (request : Api.PaymentRequest) (body : Api.TransferResult) :
  Api.transfer_funds today db request = (db', Api.Ok body) →
  PrimFloat.leb (Api.req_amount request) 0%float = false ∧
  Api.res_status body = "success" ∧
  Api.res_from_account body = Api.req_from_account request ∧
  Api.res_to_account body = Api.req_to_account request ∧
  Api.res_amount body = Api.req_amount request ∧
  transfer_funds today db (Api.req_from_account request) (Api.req_to_account request)
    (Api.req_amount request) = (db', Return (Some (Api.res_payment_id body))) ∧
  get_payment db (Api.res_payment_id body) = None ∧
  get_payment db' (Api.res_payment_id body) =
    Some {| from_account := Api.req_from_account request;
            to_account := Api.req_to_account request;
            amount := Api.req_amount request; date := today; status := "Completed" |}.
Proof.
  unfold Api.transfer_funds.
  destruct (truthy account_nonempty (get_account db (Api.req_from_account request)))
    eqn:Hfrom; cbn [negb]; [|done].
  destruct (truthy account_nonempty (get_account db (Api.req_to_account request)))
    eqn:Hto; cbn [negb]; [|done].
  destruct (PrimFloat.leb _ _) eqn:Hpos; [done|].
  destruct (PrimFloat.ltb _ _) eqn:Hlt; [done|].
  destruct (transfer_funds today db _ _ _) as [db1 [r|key]] eqn:Htr; [|done].
  destruct (transfer_funds_after_checks _ _ _ _ _ _ _ Hfrom Hto Hlt Htr)
    as (rest & -> & Hfresh & Hstored).
  change (Api.str_truthy (Some ("PAY" +:+ rest))) with true. cbn [negb].
  intros [= <- <-]. cbn [Api.res_status Api.res_payment_id Api.res_from_account
                          Api.res_to_account Api.res_amount].
  change (default "" (Some ("PAY" +:+ rest))) with ("PAY" +:+ rest).
  done.
Qed.

(** 100 from ACC1 to ACC2 of the sample bank. *)
Lemma transfer_endpoint_success_witness :
  PrimFloat.leb 100%float 0%float = false ∧
  "success" = "success" ∧ "ACC1" = "ACC1" ∧ "ACC2" = "ACC2" ∧ 100%float = 100%float ∧
  transfer_funds "2024-05-01" Samples.bank "ACC1" "ACC2" 100%float
    = ((transfer_funds "2024-05-01" Samples.bank "ACC1" "ACC2" 100%float).1,
       Return (Some "PAY002")) ∧
  get_payment Samples.bank "PAY002" = None ∧
  get_payment (transfer_funds "2024-05-01" Samples.bank "ACC1" "ACC2" 100%float).1 "PAY002" =
    Some {| from_account := "ACC1"; to_account := "ACC2";
            amount := 100%float; date := "2024-05-01"; status := "Completed" |}.
Proof.
  apply (transfer_endpoint_success "2024-05-01" Samples.bank
           (transfer_funds "2024-05-01" Samples.bank "ACC1" "ACC2" 100%float).1
           (Api.mkPaymentRequest "ACC1" "ACC2" 100%float)
           (Api.mkTransferResult "success" "PAY002" "ACC1" "ACC2" 100%float)).
  vm_compute. reflexivity.
Defined.

(** The account the loop stores for an id of the list. *)
Definition stored_account (db : DB) (account_id : string) : option Account :=
  match get_account db account_id with
  | Some account => if account_nonempty account then Some account else None
  | None => None
  end.

Lemma collect_accounts_from (db : DB) (account_ids : list string) :
  ∀ (accounts : gmap string Account) (k : string),
    foldl (λ accounts account_id,
             match get_account db account_id with
             | Some account =>
                 if account_nonempty account then <[account_id := account]> accounts
                 else accounts
             | None => accounts
             end) accounts account_ids !! k =
    if decide (k ∈ account_ids)
    then match stored_account db k with Some a => Some a | None => accounts !! k end
    else accounts !! k.
Proof.
  induction account_ids as [|i ids IH]; intros accounts k; cbn [foldl].
  - rewrite decide_False; [done|]. by intros ?%elem_of_nil.
  - rewrite IH. unfold stored_account.
    destruct (decide (k = i)) as [->|Hne].
    + rewrite (decide_True (P := i ∈ i :: ids)) by (apply elem_of_cons; by left).
      destruct (get_account db i) as [a|]; [|by case_decide].
      destruct (account_nonempty a); [|by case_decide].
      rewrite lookup_insert_eq. by case_decide.
    + assert (accounts !! k =
              match get_account db i with
              | Some account =>
                  if account_nonempty account then <[i := account]> accounts else accounts
              | None => accounts
              end !! k) as <-.
      { destruct (get_account db i) as [a|]; [|done].
        destruct (account_nonempty a); [|done]. by rewrite lookup_insert_ne. }
      destruct (decide (k ∈ ids)) as [Hin|Hnin].
      * rewrite decide_True; [done|]. apply elem_of_cons; by right.
      * rewrite decide_False; [done|]. by intros [?|?]%elem_of_cons.
Qed.

Lemma collect_accounts_size (db : DB) (account_ids : list string) :
  ∀ accounts : gmap string Account,
    (size (foldl (λ accounts account_id,
                    match get_account db account_id with
                    | Some account =>
                        if account_nonempty account then <[account_id := account]> accounts
                        else accounts
                    | None => accounts
                    end) accounts account_ids)
     ≤ size accounts + length account_ids)%nat.
Proof.
  induction account_ids as [|i ids IH]; intros accounts; cbn [foldl length]; [lia|].
  etrans; [apply IH|].
  destruct (get_account db i) as [a|]; [|lia].
  destruct (account_nonempty a); [|lia].
  rewrite map_size_insert. destruct (accounts !! i); cbn [id]; lia.
Qed.

(** X14. GET /users/{user_id}/accounts answers 404 exactly when the user is not
    stored or is an empty dictionary. Otherwise it returns, under each id of
    the user's list for which the database holds an account that is not empty,
    that account, and nothing else; the count is the number of accounts
    returned, at most the length of the list. *)
Theorem user_accounts_endpoint (db : DB) (user_id : string) :
  match Api.get_user_accounts db user_id with
  | Api.Ok body =>
      ∃ u, get_user db user_id = Some u ∧ user_nonempty u = true ∧
        Api.ua_user_id body = user_id ∧
        Api.ua_account_count body = size (Api.ua_accounts body) ∧
        (Api.ua_account_count body ≤ length (default [] (accounts_of u)))%nat ∧
        ∀ k a, Api.ua_accounts body !! k = Some a ↔
               k ∈ default [] (accounts_of u) ∧ get_account db k = Some a ∧
               account_nonempty a = true
  | Api.HTTPException status_code detail =>
      status_code = 404 ∧ detail = "User not found" ∧
      truthy user_nonempty (get_user db user_id) = false
  end.
Proof.
  unfold Api.get_user_accounts.
  destruct (get_user db user_id) as [u|]; [|by repeat split].
  cbn [truthy]. destruct (user_nonempty u) eqn:Hu; [|by repeat split].
  exists u. cbn [Api.ua_user_id Api.ua_account_count Api.ua_accounts].
  split; [done|]. split; [done|]. split; [done|]. split; [done|]. split.
  - unfold Api.collect_accounts.
    pose proof (collect_accounts_size db (default [] (accounts_of u)) ∅) as Hsize.
    rewrite map_size_empty in Hsize. exact Hsize.
  - intros k a. unfold Api.collect_accounts. rewrite collect_accounts_from.
    rewrite lookup_empty. unfold stored_account. case_decide as Hin.
    + destruct (get_account db k) as [a'|];
        [|split; [done|by intros (_ & ? & _)]].
      destruct (account_nonempty a') eqn:Hne; split.
      * by intros [= <-].
      * by intros (_ & ? & _).
      * done.
      * intros (_ & [= <-] & Hne'). congruence.
    + split; [done|]. by intros (? & _).
Qed.

End ApiFacts.

(* ===================================================================== *)
(** ** The websocket handler along any schedule *)
(* ===================================================================== *)

Section VoiceRuns.
Import Voice.
Context `{ops : LlmServiceOps}.
Local Open Scope list_scope.

Implicit Types (st : Session) (db : Db.DB) (n : nat) (t : Task).

(** One step appends at most one message, which is a ping_pong reply exactly
    when the step handles a ping_pong message. *)
Lemma step_sent st (a : Action) :
  ∃ ms, sent (step st a) = sent st ++ ms ∧ pongs ms = pings [a].
Proof.
  destruct a as [db [from_number|ts|tr|kind rid tr|s]|n]; cbn [step handle_message].
  - destruct (bool_decide _); [exists []; by rewrite app_nil_r|].
    destruct (Db.truthy _ _); by eexists [_].
  - by eexists [_].
  - exists []. by rewrite app_nil_r.
  - exists []. rewrite app_nil_r. split; [|done].
    cbn [llm_client set_response_id]. by destruct (llm_client st).
  - exists []. by rewrite app_nil_r.
  - unfold resume. destruct (tasks st !! n) as [t|]; [|exists []; by rewrite app_nil_r].
    destruct (at_point t); [destruct (events t)| |];
      try (exists []; by rewrite app_nil_r).
    + by eexists [_].
    + exists []. rewrite app_nil_r. by destruct (_ <? _).
Qed.


(** X16. Every ping_pong message is answered once, with its timestamp, in the
    order of arrival, and nothing else is ever answered with a ping_pong: the
    replies sent along a schedule are the timestamps of its ping_pong
    messages. *)
Theorem pongs_answer_pings (schedule : list Action) :
  ∀ st, pongs (sent (run st schedule)) = pongs (sent st) ++ pings schedule.
Proof.
  induction schedule as [|a schedule IH]; intros st.
  - cbn. by rewrite app_nil_r.
  - rewrite run_cons, IH. destruct (step_sent st a) as (ms & -> & Hms).
    unfold pongs at 1. rewrite omap_app. fold (pongs (sent st)) (pongs ms).
    rewrite Hms, <- app_assoc. f_equal. unfold pings. by destruct a as [? []|].
Qed.

(** X17. The recorded response id is the one of the latest request of a response,
    or the earlier value when there has been none. *)
Theorem response_id_of_last_request (schedule : list Action) :
  ∀ st, response_id (run st schedule)
        = default (response_id st) (last (omap requested schedule)).
Proof.
  induction schedule as [|a schedule IH]; intros st; [done|].
  rewrite run_cons, IH, step_response_id. cbn [omap list_omap].
  destruct (requested a) as [r|]; [|done].
  rewrite last_cons. cbn [default]. by destruct (last _).
Qed.

(** *** The client *)

Lemma step_llm_client st (a : Action) :
  is_Some (llm_client st) → is_Some (llm_client (step st a)).
Proof.
  intros Hc. destruct a as [db [from_number|ts|tr|kind rid tr|s]|n];
    cbn [step handle_message]; try done.
  - destruct (bool_decide _); [done|]. by destruct (Db.truthy _ _).
  - destruct Hc as [c Hc]. change (is_Some (llm_client (handle_message db st (response kind rid tr)))).
    by rewrite (handle_message_request db st c).
  - by rewrite resume_llm_client.
Qed.

(** X18. A client, once created by the call details, is never dropped: every
    later request of a response finds it. *)
Theorem client_stays_initialized (schedule : list Action) :
  ∀ st, is_Some (llm_client st) → is_Some (llm_client (run st schedule)).
Proof.
  induction schedule as [|a schedule IH]; intros st Hc; [done|].
  rewrite run_cons. by apply IH, step_llm_client.
Qed.

Lemma step_without_client st (a : Action) :
  llm_client st = None → tasks st = [] → no_caller_number [a] = true →
  llm_client (step st a) = None ∧ tasks (step st a) = [] ∧
  sent (step st a) = sent st ++ (OutPingPong <$> pings [a]).
Proof.
  intros Hc Ht Ha.
  destruct a as [db [from_number|ts|tr|kind rid tr|s]|n]; cbn [step handle_message].
  - cbn in Ha. rewrite andb_true_r in Ha. rewrite Ha. by rewrite app_nil_r.
  - done.
  - by rewrite app_nil_r.
  - cbn [llm_client set_response_id]. rewrite Hc. cbn. by rewrite app_nil_r.
  - by rewrite app_nil_r.
  - unfold resume. rewrite Ht. cbn. by rewrite app_nil_r.
Qed.

(** X19. As long as no call_details message with a caller number has arrived,
    nothing but ping_pong replies is sent: requests of a response are dropped
    one after the other, whatever their number and order. *)
Theorem no_response_without_caller (schedule : list Action) :
  ∀ st, llm_client st = None → tasks st = [] → no_caller_number schedule = true →
    sent (run st schedule) = sent st ++ (OutPingPong <$> pings schedule) ∧
    llm_client (run st schedule) = None.
Proof.
  induction schedule as [|a schedule IH]; intros st Hc Ht Hno.
  - cbn. by rewrite app_nil_r.
  - cbn [no_caller_number forallb] in Hno. apply andb_prop in Hno as [Ha Hno].
    destruct (step_without_client st a Hc Ht) as (Hc' & Ht' & Hsent).
    { cbn. by rewrite Ha. }
    rewrite run_cons. destruct (IH _ Hc' Ht' Hno) as [-> ->]. split; [|done].
    rewrite Hsent, <- app_assoc. f_equal. unfold pings. cbn [omap list_omap].
    destruct a as [? []|]; by cbn.
Qed.

(** *** What a task sends *)

(** X20. Whatever the schedule, the fragments a task sends are the events its
    generator still had to yield, from the first on, in their order and each
    at most once; a task that has finished, by exhaustion or by its check,
    never sends again. *)
Theorem task_sends_events_in_order (schedule : list Action) :
  ∀ st n t,
    tasks st !! n = Some t →
    sent_by n st schedule `prefix_of` (OutResponse <$> events t) ∧
    (at_point t = Finished → sent_by n st schedule = []).
Proof.
  induction schedule as [|a schedule IH]; intros st n t Ht.
  { split; [apply prefix_nil|done]. }
  cbn [sent_by].
  assert (a ≠ Resume n →
          sent_by n (step st a) schedule `prefix_of` (OutResponse <$> events t) ∧
          (at_point t = Finished → sent_by n (step st a) schedule = [])) as Hother.
  { intros Hne. apply IH. by apply step_keeps_task. }
  destruct a as [db m|m]; [by apply Hother|].
  destruct (decide (m = n)) as [->|Hmn]; [|apply Hother; congruence].
  clear Hother. cbn [step].
  pose proof (lookup_lt_Some _ _ _ Ht) as Hn.
  destruct (at_point t) eqn:Hat; [destruct (events t) as [|event rest] eqn:Hev| |].
  - rewrite (resume_exhausted st n t) by done.
    rewrite delivered_after_same by done.
    match goal with |- context [sent_by n ?s schedule] =>
      destruct (IH s n (mkTask (request_obj t) [] Finished)
                  (list_lookup_insert_eq _ _ _ Hn)) as [Hpre _] end.
    split; [done|done].
  - rewrite (resume_event st n t event rest) by done.
    rewrite (delivered_after_send _ _ [OutResponse event]) by done.
    match goal with |- context [sent_by n ?s schedule] =>
      destruct (IH s n (mkTask (request_obj t) rest AwaitSend)
                  (list_lookup_insert_eq _ _ _ Hn)) as [Hpre _] end.
    split; [|done]. cbn [fmap list_fmap app]. by apply prefix_cons.
  - assert (∃ p, resume st n = set_tasks st (<[n := mkTask (request_obj t) (events t) p]> (tasks st)))
      as [p ->].
    { unfold resume. rewrite Ht, Hat. destruct (_ <? _); eauto. }
    rewrite delivered_after_same by done.
    match goal with |- context [sent_by n ?s schedule] =>
      destruct (IH s n (mkTask (request_obj t) (events t) p)
                  (list_lookup_insert_eq _ _ _ Hn)) as [Hpre _] end.
    split; [done|done].
  - rewrite (resume_finished st n t) by done.
    rewrite delivered_after_same by done.
    destruct (IH st n t Ht) as [Hpre Hfin]. split; [done|]. intros _. by apply Hfin.
Qed.

(** *** The caller number *)

(** X21. The first two characters of the caller number are not looked at: the
    formatted number starts with "+1-" whatever they are, so two numbers that
    differ only there are looked up as the same user and greeted alike. *)
Theorem caller_prefix_is_ignored db st (c1 c2 d1 d2 : ascii) (rest : string) :
  format_number (String c1 (String c2 rest)) = format_number (String d1 (String d2 rest)) ∧
  handle_message db st (call_details (Some (String c1 (String c2 rest)))) =
  handle_message db st (call_details (Some (String d1 (String d2 rest)))).
Proof.
  assert (format_number (String c1 (String c2 rest))
          = format_number (String d1 (String d2 rest))) as Hfmt by reflexivity.
  split; [done|].
  rewrite !call_details_with_number by done. cbv zeta. by rewrite Hfmt.
Qed.

End VoiceRuns.

Section VoiceRunsExamples.
Import Voice Samples.
#[local] Existing Instance demo_ops.
Local Open Scope list_scope.

(** After the greeting, two requests and some steps of their tasks. *)
Lemma client_stays_initialized_witness :
  is_Some (llm_client
             (run greeted [Receive demo_db (response response_required (Some 1) []);
                           Resume 0;
                           Receive demo_db (response reminder_required (Some 2) []);
                           Resume 0; Resume 1])).
Proof.
  apply (client_stays_initialized
           [Receive demo_db (response response_required (Some 1) []);
            Resume 0;
            Receive demo_db (response reminder_required (Some 2) []);
            Resume 0; Resume 1] greeted).
  vm_compute. eauto.
Defined.

(** A web call: call details without a number, a request, a ping, a second
    request. Only the ping is answered. *)
Lemma no_response_without_caller_witness :
  sent (run init [Receive demo_db (call_details None);
                  Receive demo_db (response response_required (Some 1) []);
                  Receive demo_db (ping_pong (Some 17));
                  Resume 0;
                  Receive demo_db (response response_required (Some 2) [])])
  = sent init ++
    (OutPingPong <$> pings [Receive demo_db (call_details None);
                            Receive demo_db (response response_required (Some 1) []);
                            Receive demo_db (ping_pong (Some 17));
                            Resume 0;
                            Receive demo_db (response response_required (Some 2) [])]) ∧
  llm_client (run init [Receive demo_db (call_details None);
                        Receive demo_db (response response_required (Some 1) []);
                        Receive demo_db (ping_pong (Some 17));
                        Resume 0;
                        Receive demo_db (response response_required (Some 2) [])]) = None.
Proof.
  apply (no_response_without_caller
           [Receive demo_db (call_details None);
            Receive demo_db (response response_required (Some 1) []);
            Receive demo_db (ping_pong (Some 17));
            Resume 0;
            Receive demo_db (response response_required (Some 2) [])] init);
    reflexivity.
Defined.

(** The task of the first request of the sample call, resumed between the
    steps of the second. *)
Lemma task_sends_events_in_order_witness :
  sent_by 0 second_request_accepted [Resume 1; Resume 0; Resume 1; Resume 0]
    `prefix_of` (OutResponse <$> [final_fragment 1]) ∧
  (AwaitNext = Finished →
   sent_by 0 second_request_accepted [Resume 1; Resume 0; Resume 1; Resume 0] = []).
Proof.
  apply (task_sends_events_in_order [Resume 1; Resume 0; Resume 1; Resume 0]
           second_request_accepted 0
           (mkTask (mkRequest response_required 1 []) [final_fragment 1] AwaitNext)).
  vm_compute. reflexivity.
Defined.

End VoiceRunsExamples.

(* ===================================================================== *)
(** ** The helpers and the storage service *)
(* ===================================================================== *)

Section HelpersFacts.
Import Db.
Local Open Scope list_scope.

(** X22. [generate_payment_id] of the helpers counts the payments, so it hands out
    an id a second time once a payment has been deleted: store a payment under
    the generated id (free at that moment), delete any earlier payment, and the
    next generated id is the same one, now the key of the stored payment. *)
Theorem helper_payment_id_is_reused (db : DB) (payment_data earlier : Payment)
    (earlier_id : string) :
  get_payment db (Helpers.generate_payment_id db) = None →
  get_payment db earlier_id = Some earlier →
  Helpers.generate_payment_id
    (delete_payment (update_payment db (Helpers.generate_payment_id db) payment_data)
       earlier_id).1
    = Helpers.generate_payment_id db ∧
  get_payment
    (delete_payment (update_payment db (Helpers.generate_payment_id db) payment_data)
       earlier_id).1
    (Helpers.generate_payment_id db) = Some payment_data.
Proof.
  intros Hfree Hearlier. set (id1 := Helpers.generate_payment_id db) in *.
  assert (earlier_id ≠ id1) as Hne by (intros ->; congruence).
  set (db1 := update_payment db id1 payment_data).
  assert (get_payment db1 earlier_id = Some earlier) as Hearlier1.
  { unfold db1. rewrite get_payment_update_payment. by rewrite decide_False. }
  assert ((delete_payment db1 earlier_id).1 =
          {| users := users db1; accounts := accounts db1;
             payments := Some (delete earlier_id (get_payments db1)) |}) as ->.
  { unfold delete_payment. unfold get_payment in Hearlier1. by rewrite Hearlier1. }
  assert (get_payments db1 = <[id1 := payment_data]> (get_payments db)) as Hpay1 by done.
  set (db2 := mkDB _ _ _).
  assert (get_payments db2 = delete earlier_id (get_payments db1)) as Hpay2 by done.
  split.
  - unfold Helpers.generate_payment_id, id1. rewrite Hpay2.
    rewrite map_size_delete_Some by eauto.
    rewrite Hpay1, map_size_insert_None by done. done.
  - unfold get_payment. rewrite Hpay2, lookup_delete_ne by done.
    rewrite Hpay1. apply lookup_insert_eq.
Qed.

(** One payment PAY001 stored; the helper generates PAY002, PAY001 is
    deleted, and the helper generates PAY002 again. *)
Lemma helper_payment_id_is_reused_witness :
  Helpers.generate_payment_id
    (delete_payment
       (update_payment Samples.bank (Helpers.generate_payment_id Samples.bank)
          (mkPayment "ACC1" "ACC2" 5%float "2024-05-02" "Completed"))
       "PAY001").1
    = Helpers.generate_payment_id Samples.bank ∧
  get_payment
    (delete_payment
       (update_payment Samples.bank (Helpers.generate_payment_id Samples.bank)
          (mkPayment "ACC1" "ACC2" 5%float "2024-05-02" "Completed"))
       "PAY001").1
    (Helpers.generate_payment_id Samples.bank)
    = Some (mkPayment "ACC1" "ACC2" 5%float "2024-05-02" "Completed").
Proof.
  apply (helper_payment_id_is_reused Samples.bank
           (mkPayment "ACC1" "ACC2" 5%float "2024-05-02" "Completed")
           (mkPayment "ACC2" "ACC1" 40%float "2024-04-30" "Completed") "PAY001");
    vm_compute; reflexivity.
Defined.

End HelpersFacts.

Section StorageFacts.
Import Storage.
Local Open Scope list_scope.

Lemma split_nonempty (sep : ascii) (s : string) : split sep s ≠ [].
Proof.
  induction s as [|c r IH]; [done|]. cbn [split].
  destruct (Ascii.eqb c sep); [done|]. by destruct (split sep r).
Qed.

(** A string without the separator is its own single piece. *)
Lemma split_without_separator (sep : ascii) (s : string) :
  occurs sep s = false → split sep s = [s].
Proof.
  induction s as [|c r IH]; [done|]. cbn [occurs split].
  intros [Hc Hr]%orb_false_elim. rewrite Hc, (IH Hr). done.
Qed.

(** X23. [upload_pdf] makes at most one request, and none at all when a credential
    is missing, when the file does not exist or cannot be opened, or when the
    path contains no underscore (the metadata name cannot be built); in all
    these cases it returns [None]. *)
Theorem upload_pdf_without_request (svc : PinataService) (w : World)
    (pdf_path document_type : string) :
  (length (upload_pdf svc w pdf_path document_type).1 ≤ 1)%nat ∧
  (api_key svc = "" ∨ api_secret svc = "" ∨ isfile w pdf_path = false ∨
   can_open w pdf_path = false ∨ occurs "_" pdf_path = false →
   upload_pdf svc w pdf_path document_type = ([], None)).
Proof.
  unfold upload_pdf, _upload_file_to_pinata. split.
  - destruct (bool_decide _ || bool_decide _); [cbn; lia|].
    destruct (negb (isfile w pdf_path)); [cbn; lia|].
    destruct (negb (can_open w pdf_path)); [cbn; lia|].
    destruct (reverse (split "_" pdf_path)) as [|x [|y l]]; [cbn; lia..|].
    destruct (post w _); cbn; lia.
  - intros [H|[H|[H|[H|H]]]].
    + by rewrite (bool_decide_eq_true_2 _ H).
    + rewrite (bool_decide_eq_true_2 _ H). by rewrite orb_true_r.
    + rewrite H. cbn [negb]. by destruct (_ || _).
    + rewrite H. cbn [negb]. destruct (_ || _); [done|]. by destruct (negb _).
    + rewrite (split_without_separator _ _ H). cbn [reverse rev_append].
      destruct (_ || _); [done|]. destruct (negb _); [done|]. by destruct (negb _).
Qed.

(** X24. When [upload_pdf] returns a result, exactly one request was made, with
    both credentials in its headers and the base name of the path as file
    name, it was answered with status 200, and the URL of the result is the
    gateway URL of the hash of that answer ("None" when the answer has no
    hash). *)
Theorem upload_pdf_result (svc : PinataService) (w : World)
    (pdf_path document_type : string) (requests : list Request) (result : Upload) :
  upload_pdf svc w pdf_path document_type = (requests, Some result) →
  ∃ request,
    requests = [request] ∧
    post w request = Status200 (IpfsHash result) ∧
    url request = PINATA_API_URL ∧
    headers request = [("pinata_api_key", api_key svc);
                       ("pinata_secret_api_key", api_secret svc)] ∧
    api_key svc ≠ "" ∧ api_secret svc ≠ "" ∧
    file_name request = basename pdf_path ∧
    metadata_type request = document_type ∧
    status result = "success" ∧
    PinataURL result = get_gateway_url (default "None" (IpfsHash result)).
Proof.
  unfold upload_pdf, _upload_file_to_pinata.
  destruct (bool_decide (api_key svc = "")) eqn:Hkey; [done|].
  destruct (bool_decide (api_secret svc = "")) eqn:Hsecret; [done|].
  apply bool_decide_eq_false in Hkey, Hsecret. cbn [orb].
  destruct (negb (isfile w pdf_path)); [done|].
  destruct (negb (can_open w pdf_path)); [done|].
  destruct (reverse (split "_" pdf_path)) as [|x [|y l]]; [done..|].
  destruct (post w _) as [h| |] eqn:Hpost; [|done..].
  intros [= <- <-]. eexists. split; [done|]. by rewrite Hpost.
Qed.

(** A world in which every file exists and Pinata answers 200 with a hash. *)
Definition pinning_world : World :=
  {| isfile := λ _, true; can_open := λ _, true; now := "2024-05-01 10:00:00";
     post := λ _, Status200 (Some "QmHash") |}.

Lemma upload_pdf_result_witness :
  ∃ request,
    [mkRequest PINATA_API_URL
       [("pinata_api_key", "key"); ("pinata_secret_api_key", "secret")]
       "LOAN_4155550000_1714550000.pdf" "application/pdf"
       "LOAN_4155550000_1714550000.pdf" "LOAN" "2024-05-01 10:00:00"] = [request] ∧
    post pinning_world request = Status200 (Some "QmHash") ∧
    url request = PINATA_API_URL ∧
    headers request = [("pinata_api_key", "key"); ("pinata_secret_api_key", "secret")] ∧
    "key" ≠ "" ∧ "secret" ≠ "" ∧
    file_name request = basename "/tmp/LOAN_4155550000_1714550000.pdf" ∧
    metadata_type request = "LOAN" ∧
    "success" = "success" ∧
    "https://gateway.pinata.cloud/ipfs/QmHash" = get_gateway_url (default "None" (Some "QmHash")).
Proof.
  apply (upload_pdf_result (mkPinataService "key" "secret") pinning_world
           "/tmp/LOAN_4155550000_1714550000.pdf" "LOAN"
           [mkRequest PINATA_API_URL
              [("pinata_api_key", "key"); ("pinata_secret_api_key", "secret")]
              "LOAN_4155550000_1714550000.pdf" "application/pdf"
              "LOAN_4155550000_1714550000.pdf" "LOAN" "2024-05-01 10:00:00"]
           (mkUpload (Some "QmHash") "https://gateway.pinata.cloud/ipfs/QmHash" "success")).
  vm_compute. reflexivity.
Defined.

End StorageFacts.
